(** * The article generation endpoint (src/app/api/generate/route.ts)

    A shallow embedding of the route handler [POST] and of its helpers
    [buildAffiliateLinks] and [assembleArticle], followed by the properties
    of the generation pipeline.

    Conventions.
    - A JavaScript string is a [string]: the bytes of its UTF-8 encoding.
    - [undefined] is [None] of an [option]; [null] inside parsed JSON is
      [JNull].
    - A function that may throw returns a [Completion].
    - Functions of the platform (JSON.parse, String.prototype.trim, the
      URL class, p-limit) are written out after their standards; the
      network services the handler calls are the fields of [Services]. *)

From Stdlib Require Import Ascii String.
From Stdlib Require QArith_base.
From stdpp Require Import base option list strings gmap fin_maps.

(** ** Exceptions *)

Inductive Exception : Type :=
  | ErrorMessage (message : string)   (* [new Error(message)], or an error of a service *)
  | TypeError.                        (* raised by the engine; its message is engine text *)

Inductive Completion (A : Type) : Type :=
  | Return (a : A)
  | Throw (e : Exception).
Arguments Return {A} a.
Arguments Throw {A} e.

Definition bindC {A B : Type} (c : Completion A) (k : A -> Completion B) : Completion B :=
  match c with
  | Return a => k a
  | Throw e => Throw e
  end.

Notation "'let*' x ':=' c 'in' k" := (bindC c (fun x => k))
  (at level 10, x pattern, c at level 100, k at level 200).

(** ** Strings *)

Module Str.

Definition chr (n : nat) : ascii := ascii_of_nat n.
Definition of_codes (l : list nat) : string := string_of_list_ascii (chr <$> l).

Definition LF : string := of_codes [10].
Definition DQUOTE : string := of_codes [34].

(** [s.split(sep)] for a one-character separator: never the empty list. *)
Fixpoint split (sep : ascii) (s : string) : list string :=
  match s with
  | EmptyString => [EmptyString]
  | String c rest =>
      if Ascii.eqb c sep then EmptyString :: split sep rest
      else match split sep rest with
           | piece :: pieces => String c piece :: pieces
           | [] => [String c EmptyString]
           end
  end.

(** The text before the first [sep], and the text after it if there is
    one. *)
Fixpoint split_first (sep : ascii) (s : string) : string * option string :=
  match s with
  | EmptyString => (EmptyString, None)
  | String c rest =>
      if Ascii.eqb c sep then (EmptyString, Some rest)
      else let '(before, after) := split_first sep rest in (String c before, after)
  end.

(** [l.join(sep)] *)
Definition join (sep : string) (l : list string) : string := String.concat sep l.

(** A string is truthy when it is not empty. *)
Definition truthy (s : string) : bool :=
  match s with EmptyString => false | String _ _ => true end.

(** [a || b] on strings *)
Definition or_else (a b : string) : string := if truthy a then a else b.

Fixpoint contains (c : ascii) (s : string) : bool :=
  match s with
  | EmptyString => false
  | String a rest => Ascii.eqb a c || contains c rest
  end.

(** The UTF-8 encodings of the code points of WhiteSpace and
    LineTerminator, which [trim] strips: U+0009..U+000D, U+0020, U+00A0,
    U+1680, U+2000..U+200A, U+2028, U+2029, U+202F, U+205F, U+3000,
    U+FEFF. *)
Definition white_space : list (list nat) :=
  [ [9]; [10]; [11]; [12]; [13]; [32]; [194; 160]; [225; 154; 128];
    [226; 128; 128]; [226; 128; 129]; [226; 128; 130]; [226; 128; 131];
    [226; 128; 132]; [226; 128; 133]; [226; 128; 134]; [226; 128; 135];
    [226; 128; 136]; [226; 128; 137]; [226; 128; 138]; [226; 128; 168];
    [226; 128; 169]; [226; 128; 175]; [226; 129; 159]; [227; 128; 128];
    [239; 187; 191] ].

Fixpoint strip_prefix (p : list ascii) (l : list ascii) : option (list ascii) :=
  match p, l with
  | [], _ => Some l
  | a :: p', b :: l' => if Ascii.eqb a b then strip_prefix p' l' else None
  | _ :: _, [] => None
  end.

Fixpoint strip_any (ps : list (list ascii)) (l : list ascii) : option (list ascii) :=
  match ps with
  | [] => None
  | p :: ps' => match strip_prefix p l with
                | Some l' => Some l'
                | None => strip_any ps' l
                end
  end.

Fixpoint drop_white (ws : list (list ascii)) (fuel : nat) (l : list ascii) : list ascii :=
  match fuel with
  | O => l
  | S fuel' => match strip_any ws l with
               | Some l' => drop_white ws fuel' l'
               | None => l
               end
  end.

(** The white space sequences as bytes, reversed for matching at the end. *)
Definition white_bytes (backwards : bool) : list (list ascii) :=
  map (fun w => let bytes := map chr w in if backwards then rev bytes else bytes)
      white_space.

Definition trimStart_list (l : list ascii) : list ascii :=
  drop_white (white_bytes false) (length l) l.

Definition trimEnd_list (l : list ascii) : list ascii :=
  reverse (drop_white (white_bytes true) (length l) (reverse l)).

(** [s.trim()] *)
Definition trim (s : string) : string :=
  string_of_list_ascii (trimEnd_list (trimStart_list (list_ascii_of_string s))).

End Str.

(** ** JSON values and JSON.parse *)

(** The values JSON.parse builds. A number keeps its lexeme (no claim reads
    a number). An array carries, besides its elements, the named own
    properties a later assignment may add to it. Property lists are in
    creation order and hold each key once. *)
#[warnings="-register-all"]
Inductive JSValue : Type :=
  | JNull
  | JBool (b : bool)
  | JNumber (lexeme : string)
  | JString (s : string)
  | JArray (elements : list JSValue) (named : list (string * JSValue))
  | JObject (props : list (string * JSValue)).

Module Obj.

Section Props.
Context {V : Type}.

Fixpoint get (k : string) (ps : list (string * V)) : option V :=
  match ps with
  | [] => None
  | (k', v) :: rest => if String.eqb k k' then Some v else get k rest
  end.

(** [o[k] = v]: overwrite in place, or append a new property. *)
Fixpoint set (k : string) (v : V) (ps : list (string * V)) : list (string * V) :=
  match ps with
  | [] => [(k, v)]
  | (k', v') :: rest =>
      if String.eqb k k' then (k, v) :: rest else (k', v') :: set k v rest
  end.
End Props.

End Obj.

Module JSON.

Definition is_ws (c : ascii) : bool :=
  let n := nat_of_ascii c in
  Nat.eqb n 32 || Nat.eqb n 9 || Nat.eqb n 10 || Nat.eqb n 13.

Fixpoint skip_ws (s : string) : string :=
  match s with
  | String c rest => if is_ws c then skip_ws rest else s
  | EmptyString => s
  end.

Definition is_digit (c : ascii) : bool :=
  let n := nat_of_ascii c in Nat.leb 48 n && Nat.leb n 57.

Definition hex_val (c : ascii) : option nat :=
  let n := nat_of_ascii c in
  if Nat.leb 48 n && Nat.leb n 57 then Some (n - 48)
  else if Nat.leb 65 n && Nat.leb n 70 then Some (n - 55)
  else if Nat.leb 97 n && Nat.leb n 102 then Some (n - 87)
  else None.

(** Four hexadecimal digits: a UTF-16 code unit. *)
Definition hex4 (s : string) : option (N * string) :=
  match s with
  | String a (String b (String c (String d rest))) =>
      match hex_val a, hex_val b, hex_val c, hex_val d with
      | Some x, Some y, Some z, Some w =>
          Some (N.of_nat (((x * 16 + y) * 16 + z) * 16 + w), rest)
      | _, _, _, _ => None
      end
  | _ => None
  end.

Definition of_bytes (l : list N) : string := Str.of_codes (map N.to_nat l).

(** UTF-8 of a code point (a lone surrogate is encoded like any other
    three-byte code point). *)
Definition utf8 (cp : N) : string :=
  (if cp <? 128 then of_bytes [cp]
   else if cp <? 2048 then of_bytes [192 + cp / 64; 128 + cp mod 64]
   else if cp <? 65536 then
     of_bytes [224 + cp / 4096; 128 + (cp / 64) mod 64; 128 + cp mod 64]
   else
     of_bytes [240 + cp / 262144; 128 + (cp / 4096) mod 64;
               128 + (cp / 64) mod 64; 128 + cp mod 64])%N.

Definition is_high (u : N) : bool := ((55296 <=? u) && (u <=? 56319))%N.
Definition is_low (u : N) : bool := ((56320 <=? u) && (u <=? 57343))%N.

(** What follows a backslash: the decoded text and the remaining input. *)
Definition parse_escape (s : string) : option (string * string) :=
  match s with
  | String c rest =>
      let n := nat_of_ascii c in
      if Nat.eqb n 34 then Some (Str.of_codes [34], rest)
      else if Nat.eqb n 92 then Some (Str.of_codes [92], rest)
      else if Nat.eqb n 47 then Some (Str.of_codes [47], rest)
      else if Nat.eqb n 98 then Some (Str.of_codes [8], rest)
      else if Nat.eqb n 102 then Some (Str.of_codes [12], rest)
      else if Nat.eqb n 110 then Some (Str.of_codes [10], rest)
      else if Nat.eqb n 114 then Some (Str.of_codes [13], rest)
      else if Nat.eqb n 116 then Some (Str.of_codes [9], rest)
      else if Nat.eqb n 117 then
        match hex4 rest with
        | Some (u, rest') =>
            if is_high u then
              match rest' with
              | String b (String v rest2) =>
                  if Nat.eqb (nat_of_ascii b) 92 && Nat.eqb (nat_of_ascii v) 117 then
                    match hex4 rest2 with
                    | Some (w, rest3) =>
                        if is_low w
                        then Some (utf8 (65536 + (u - 55296) * 1024 + (w - 56320))%N, rest3)
                        else Some (utf8 u, rest')
                    | None => Some (utf8 u, rest')
                    end
                  else Some (utf8 u, rest')
              | _ => Some (utf8 u, rest')
              end
            else Some (utf8 u, rest')
        | None => None
        end
      else None
  | EmptyString => None
  end.

(** The characters of a string literal after its opening quote. *)
Fixpoint parse_chars (fuel : nat) (s : string) : option (string * string) :=
  match fuel with
  | O => None
  | S fuel' =>
      match s with
      | EmptyString => None
      | String c rest =>
          let n := nat_of_ascii c in
          if Nat.eqb n 34 then Some (EmptyString, rest)
          else if Nat.eqb n 92 then
            match parse_escape rest with
            | Some (piece, rest') =>
                match parse_chars fuel' rest' with
                | Some (text, rest2) => Some (piece +:+ text, rest2)
                | None => None
                end
            | None => None
            end
          else if Nat.ltb n 32 then None
          else match parse_chars fuel' rest with
               | Some (text, rest') => Some (String c text, rest')
               | None => None
               end
      end
  end.

Fixpoint take_digits (s : string) : string * string :=
  match s with
  | String c rest =>
      if is_digit c then let '(ds, r) := take_digits rest in (String c ds, r)
      else (EmptyString, s)
  | EmptyString => (EmptyString, s)
  end.

(** A number: an optional minus; then 0, or a digit 1-9 and further
    digits; then optionally a point and one or more digits; then
    optionally e or E, an optional sign and one or more digits. *)
Definition parse_number (s : string) : option (string * string) :=
  let '(sign, s1) :=
    match s with
    | String c rest => if Ascii.eqb c "-"%char then (String c EmptyString, rest)
                       else (EmptyString, s)
    | EmptyString => (EmptyString, s)
    end in
  let int_part :=
    match s1 with
    | String c rest =>
        if Ascii.eqb c "0"%char then Some (String c EmptyString, rest)
        else if is_digit c then Some (take_digits s1)
        else None
    | EmptyString => None
    end in
  match int_part with
  | None => None
  | Some (ip, s2) =>
      let frac_part :=
        match s2 with
        | String c rest =>
            if Ascii.eqb c "."%char then
              match take_digits rest with
              | (EmptyString, _) => None
              | (ds, r) => Some (String c ds, r)
              end
            else Some (EmptyString, s2)
        | EmptyString => Some (EmptyString, s2)
        end in
      match frac_part with
      | None => None
      | Some (fp, s3) =>
          let exp_part :=
            match s3 with
            | String c rest =>
                if Ascii.eqb c "e"%char || Ascii.eqb c "E"%char then
                  let '(sg, r1) :=
                    match rest with
                    | String d rest' =>
                        if Ascii.eqb d "+"%char || Ascii.eqb d "-"%char
                        then (String d EmptyString, rest')
                        else (EmptyString, rest)
                    | EmptyString => (EmptyString, rest)
                    end in
                  match take_digits r1 with
                  | (EmptyString, _) => None
                  | (ds, r) => Some (String c (sg +:+ ds), r)
                  end
                else Some (EmptyString, s3)
            | EmptyString => Some (EmptyString, s3)
            end in
          match exp_part with
          | None => None
          | Some (ep, s4) => Some (sign +:+ ip +:+ fp +:+ ep, s4)
          end
      end
  end.

Definition expect (word : string) (s : string) : option string :=
  if String.prefix word s
  then Some (String.substring (String.length word) (String.length s - String.length word) s)
  else None.

(** One value, then the members of an object or the elements of an array
    up to the closing bracket. Every recursive call has consumed input,
    so [S (length s)] is fuel enough for [s]. *)
Fixpoint parse_value (fuel : nat) (s : string) : option (JSValue * string) :=
  match fuel with
  | O => None
  | S fuel' =>
      match skip_ws s with
      | EmptyString => None
      | String c rest as s0 =>
          let n := nat_of_ascii c in
          if Nat.eqb n 123 then
            match skip_ws rest with
            | String d rest' =>
                if Nat.eqb (nat_of_ascii d) 125 then Some (JObject [], rest')
                else parse_members fuel' rest []
            | EmptyString => None
            end
          else if Nat.eqb n 91 then
            match skip_ws rest with
            | String d rest' =>
                if Nat.eqb (nat_of_ascii d) 93 then Some (JArray [] [], rest')
                else parse_elements fuel' rest []
            | EmptyString => None
            end
          else if Nat.eqb n 34 then
            match parse_chars (String.length rest) rest with
            | Some (text, rest') => Some (JString text, rest')
            | None => None
            end
          else if Nat.eqb n 116 then (fun r => (JBool true, r)) <$> expect "true" s0
          else if Nat.eqb n 102 then (fun r => (JBool false, r)) <$> expect "false" s0
          else if Nat.eqb n 110 then (fun r => (JNull, r)) <$> expect "null" s0
          else (fun '(lexeme, r) => (JNumber lexeme, r)) <$> parse_number s0
      end
  end
with parse_members (fuel : nat) (s : string) (acc : list (string * JSValue))
  : option (JSValue * string) :=
  match fuel with
  | O => None
  | S fuel' =>
      match skip_ws s with
      | String q rest =>
          if Nat.eqb (nat_of_ascii q) 34 then
            match parse_chars (String.length rest) rest with
            | Some (key, rest1) =>
                match skip_ws rest1 with
                | String colon rest2 =>
                    if Nat.eqb (nat_of_ascii colon) 58 then
                      match parse_value fuel' rest2 with
                      | Some (v, rest3) =>
                          match skip_ws rest3 with
                          | String d rest4 =>
                              let m := nat_of_ascii d in
                              if Nat.eqb m 44 then parse_members fuel' rest4 (Obj.set key v acc)
                              else if Nat.eqb m 125 then Some (JObject (Obj.set key v acc), rest4)
                              else None
                          | EmptyString => None
                          end
                      | None => None
                      end
                    else None
                | EmptyString => None
                end
            | None => None
            end
          else None
      | EmptyString => None
      end
  end
with parse_elements (fuel : nat) (s : string) (acc : list JSValue)
  : option (JSValue * string) :=
  match fuel with
  | O => None
  | S fuel' =>
      match parse_value fuel' s with
      | Some (v, rest) =>
          match skip_ws rest with
          | String d rest' =>
              let m := nat_of_ascii d in
              if Nat.eqb m 44 then parse_elements fuel' rest' (acc ++ [v])
              else if Nat.eqb m 93 then Some (JArray (acc ++ [v]) [], rest')
              else None
          | EmptyString => None
          end
      | None => None
      end
  end.

(** [JSON.parse(text)]: [None] when it throws a SyntaxError. *)
Definition parse (text : string) : option JSValue :=
  match parse_value (2 * S (String.length text)) text with
  | Some (v, rest) =>
      match skip_ws rest with
      | EmptyString => Some v
      | String _ _ => None
      end
  | None => None
  end.

End JSON.

(** ** The URL class *)

Module Url.

(** What the basic URL parser of the URL standard yields for an absolute
    URL, as far as [href] needs it: the serialisation of scheme,
    authority and path, the query and the fragment. The parser itself is
    a parameter of [buildAffiliateLinks]; [parse_plain] below reads the
    URLs that need no normalisation. *)
Record Parsed : Type := mkParsed {
  p_base : string;
  p_query : option string;
  p_fragment : option string
}.

(** A URL object together with the list of its [searchParams] object. *)
Record URL : Type := mkURL {
  base : string;
  query : option string;
  fragment : option string;
  params : list (string * string)
}.

Definition hex_digit (n : nat) : ascii :=
  Str.chr (if Nat.ltb n 10 then 48 + n else 55 + n).

(** application/x-www-form-urlencoded: a byte is kept when it is an ASCII
    letter or digit or one of * - . _, a space becomes +, any other byte
    becomes %XX. *)
Definition keeps (n : nat) : bool :=
  Nat.eqb n 42 || Nat.eqb n 45 || Nat.eqb n 46 || Nat.eqb n 95
  || (Nat.leb 48 n && Nat.leb n 57) || (Nat.leb 65 n && Nat.leb n 90)
  || (Nat.leb 97 n && Nat.leb n 122).

Fixpoint encode (s : string) : string :=
  match s with
  | EmptyString => EmptyString
  | String c rest =>
      let n := nat_of_ascii c in
      if Nat.eqb n 32 then String "+"%char (encode rest)
      else if keeps n then String c (encode rest)
      else String "%"%char
             (String (hex_digit (n / 16)) (String (hex_digit (n mod 16)) (encode rest)))
  end.

Definition serialize (l : list (string * string)) : string :=
  Str.join "&" (map (fun '(name, value) => encode name +:+ "=" +:+ encode value) l).

(** Percent-decoding, after + has become a space. The bytes are kept as
    they come (the standard then decodes them as UTF-8). *)
Fixpoint decode (s : string) : string :=
  match s with
  | EmptyString => EmptyString
  | String c rest =>
      if Ascii.eqb c "+"%char then String " "%char (decode rest)
      else if Ascii.eqb c "%"%char then
        match rest with
        | String a (String b rest') =>
            match JSON.hex_val a, JSON.hex_val b with
            | Some x, Some y =>
                String (Str.chr (x * 16 + y)) (decode rest')
            | _, _ => String c (decode rest)
            end
        | _ => String c (decode rest)
        end
      else String c (decode rest)
  end.

Definition parse_query (q : string) : list (string * string) :=
  omap (fun piece =>
          if Str.truthy piece then
            let '(name, value) := Str.split_first "="%char piece in
            Some (decode name, decode (default EmptyString value))
          else None)
       (Str.split "&"%char q).

(** [new URL(text)] *)
Definition new_URL (parser : string -> option Parsed) (text : string) : Completion URL :=
  match parser text with
  | Some p => Return {| base := p_base p; query := p_query p; fragment := p_fragment p;
                        params := default [] (parse_query <$> p_query p) |}
  | None => Throw TypeError
  end.

Fixpoint remove_name (name : string) (l : list (string * string)) : list (string * string) :=
  match l with
  | [] => []
  | (n, v) :: rest =>
      if String.eqb n name then remove_name name rest else (n, v) :: remove_name name rest
  end.

(** The list after [set]: the first pair called [name] takes the value
    and the other pairs of that name go; without one, a pair is added. *)
Fixpoint set_pair (name value : string) (l : list (string * string))
  : list (string * string) :=
  match l with
  | [] => [(name, value)]
  | (n, v) :: rest =>
      if String.eqb n name then (n, value) :: remove_name name rest
      else (n, v) :: set_pair name value rest
  end.

(** [url.searchParams.set(name, value)], with the update of the query *)
Definition searchParams_set (name value : string) (u : URL) : URL :=
  let l := set_pair name value (params u) in
  let q := serialize l in
  {| base := base u;
     query := if Str.truthy q then Some q else None;
     fragment := fragment u;
     params := l |}.

(** [url.searchParams.get(name)] *)
Fixpoint searchParams_get (name : string) (l : list (string * string)) : option string :=
  match l with
  | [] => None
  | (n, v) :: rest => if String.eqb n name then Some v else searchParams_get name rest
  end.

(** [url.toString()] *)
Definition toString (u : URL) : string :=
  base u +:+ match query u with Some q => "?" +:+ q | None => EmptyString end
         +:+ match fragment u with Some f => "#" +:+ f | None => EmptyString end.

(** A parser for the absolute URLs [scheme://authority/path?query#fragment]
    that are already in the form the standard serialises (lower-case
    scheme and host, no default port, no dot segments, nothing to
    percent-encode); an empty path becomes [/]. Everything else is
    refused. *)
Definition parse_plain (text : string) : option Parsed :=
  let '(before_fragment, frag) := Str.split_first "#"%char text in
  let '(before_query, q) := Str.split_first "?"%char before_fragment in
  let '(scheme, after_scheme) := Str.split_first ":"%char before_query in
  match after_scheme with
  | Some (String a (String b rest)) =>
      if Ascii.eqb a "/"%char && Ascii.eqb b "/"%char
         && (String.eqb scheme "https" || String.eqb scheme "http")
         && Str.truthy (fst (Str.split_first "/"%char rest))
      then Some {| p_base := if Str.contains "/"%char rest then before_query
                             else before_query +:+ "/";
                   p_query := q; p_fragment := frag |}
      else None
  | _ => None
  end.

End Url.

(** ** buildAffiliateLinks *)

(** One entry of the affiliate configuration. A property the object lacks
    is [None]; the request schema admits only entries that have both. *)
Record AffiliateEntry : Type := mkAffiliateEntry {
  baseUrl : option string;
  tag : option string
}.

(** The configuration object: a platform may be absent, or present with
    the value [undefined] ([Some None]), or present with an entry. *)
Abbreviation AffiliateLinkConfig := (gmap string (option AffiliateEntry)).

(** An [undefined] argument of a string parameter is converted to the
    string "undefined". *)
Definition to_USVString (o : option string) : string := default "undefined" o.

Section BuildAffiliateLinks.

Variable url_parser : string -> option Url.Parsed.

(** The link of one present entry: lines 43-46. *)
Definition affiliate_url (config : AffiliateEntry) (productUrl : string)
  : Completion Url.URL :=
  let* url := Url.new_URL url_parser (to_USVString (baseUrl config)) in
  let url := Url.searchParams_set "ref" (to_USVString (tag config)) url in
  let url := Url.searchParams_set "target" productUrl url in
  Return url.

(** The loop over [Object.entries(affiliateConfig)]. *)
Fixpoint build_loop (entries : list (string * option AffiliateEntry))
    (productUrl : string) (links : gmap string string)
  : Completion (gmap string string) :=
  match entries with
  | [] => Return links
  | (platform, None) :: rest => build_loop rest productUrl links
  | (platform, Some config) :: rest =>
      let* url := affiliate_url config productUrl in
      build_loop rest productUrl (<[platform := Url.toString url]> links)
  end.

Definition buildAffiliateLinks (affiliateConfig : AffiliateLinkConfig)
    (productUrl : string) : Completion (gmap string string) :=
  build_loop (map_to_list affiliateConfig) productUrl ∅.

End BuildAffiliateLinks.

(** ** The shared types (lib/types.ts) *)

(** Modelled from the spec: lib/types.ts is not part of the sources at
    hand; the shapes below follow the data model of the specification and
    the properties route.ts and page.tsx read. *)
Record TextBlock : Type := mkTextBlock {
  heading : string;
  body : string
}.

Record AffiliateBlock : Type := mkAffiliateBlock {
  platform : string;
  context : string;
  link : string
}.

Record GeneratedImage : Type := mkGeneratedImage {
  imageUrl : string;
  prompt : string
}.

Record GeneratedArticle : Type := mkGeneratedArticle {
  title : string;
  slug : string;
  metaDescription : string;
  excerpt : string;
  sections : list TextBlock;
  callToAction : string;
  faqs : list TextBlock;
  affiliateBlocks : list AffiliateBlock;
  imagePrompts : list string
}.

(** The value [requestSchema.parse] returns (lines 15-34): the defaults of
    [includeImages] and [affiliateConfig] are filled in, [additionalNotes]
    may be [undefined]. *)
Record GenerationRequest : Type := mkGenerationRequest {
  productUrl : string;
  targetLanguage : string;
  targetRegion : string;
  seoKeywords : list string;
  persona : string;
  tone : string;
  minimumWordCount : QArith_base.Q;   (* a finite number between 400 and 4000 *)
  includeImages : bool;
  affiliateConfig : AffiliateLinkConfig;
  additionalNotes : option string
}.

(** What a spell check returns: a text or a list of texts, and the
    descriptions of the changes. *)
Record Spellchecked (T : Type) : Type := mkSpellchecked {
  corrected : T;
  adjustments : list string
}.
Arguments mkSpellchecked {T} _ _.
Arguments corrected {T} _.
Arguments adjustments {T} _.

(** The request sent to the chat completion service (lines 59-90): the
    model, and the user message made of the instructions (seven fields
    copied from the payload, the notes with [""] for [undefined], the
    affiliate links) and the product. *)
Record ChatRequest (Product : Type) : Type := mkChatRequest {
  model : string;
  instructions : GenerationRequest;
  notes : string;
  affiliateLinks : gmap string string;
  product_data : Product
}.
Arguments mkChatRequest {Product} _ _ _ _ _.

Record GenerationResponse (Product : Type) : Type := mkGenerationResponse {
  product : Product;
  article : GeneratedArticle;
  spellingAdjustments : list string;
  geoHighlights : list string;
  (* [None]: the property is [undefined], so the JSON body has no such
     field. An element is [None] when the array holds [undefined] there. *)
  nanoBananaImages : option (list (option GeneratedImage))
}.
Arguments mkGenerationResponse {Product} _ _ _ _ _.
Arguments product {Product} _.
Arguments article {Product} _.
Arguments spellingAdjustments {Product} _.
Arguments geoHighlights {Product} _.
Arguments nanoBananaImages {Product} _.

Inductive HttpResponse (Product : Type) : Type :=
  | Json200 (payload : GenerationResponse Product)
  | Json400 (error : Exception).
Arguments Json200 {Product} _.
Arguments Json400 {Product} _.

(** ** The services the handler calls *)

(** The collaborators of the route: the scraper, the chat completion
    client, the spell checker, the image generator, the environment and
    the URL parser of the platform. The first argument of
    [generateNanoBananaImages] numbers the call by the position of its
    prompt: a call over the network is not a function of the prompt. The
    chat client answers with the content of the first choice, [None] when
    the choice, its message or the content is missing or [null]. *)
Class Services (Product : Type) : Type := mkServices {
  OPENAI_MODEL : option string;
  scrapeProductSnapshot : string -> Completion Product;
  getOpenAIClient : Completion (ChatRequest Product -> Completion (option string));
  spellcheckSections : list string -> string -> Completion (Spellchecked (list string));
  runSpellcheck : string -> string -> Completion (Spellchecked string);
  generateNanoBananaImages : nat -> list string -> Completion (list GeneratedImage);
  basic_url_parser : string -> option Url.Parsed
}.

(** ** assembleArticle *)

Module Draft.

Definition quoted (s : string) : string := Str.DQUOTE +:+ s +:+ Str.DQUOTE.
Definition text_member (k : string) : string := quoted k +:+ ":" +:+ quoted EmptyString.
Definition list_member (k : string) : string := quoted k +:+ ":[]".

(** The literal of line 94. *)
Definition default_content : string :=
  "{" +:+ Str.join ","
    [ text_member "title"; text_member "slug"; text_member "metaDescription";
      text_member "excerpt"; list_member "sections"; text_member "callToAction";
      list_member "faqs"; list_member "affiliateBlocks"; list_member "imagePrompts" ]
  +:+ "}".

(** [v.k] for the property names of this file: none is an index, [length]
    or a name found on a prototype. Reading a property of [null] throws. *)
Definition get_prop (v : JSValue) (k : string) : Completion (option JSValue) :=
  match v with
  | JNull => Throw TypeError
  | JObject props => Return (Obj.get k props)
  | JArray _ named => Return (Obj.get k named)
  | JBool _ | JNumber _ | JString _ => Return None
  end.

(** [v.k = x] in strict mode: a primitive cannot take a property. *)
Definition set_prop (v : JSValue) (k : string) (x : JSValue) : Completion JSValue :=
  match v with
  | JObject props => Return (JObject (Obj.set k x props))
  | JArray elements named => Return (JArray elements (Obj.set k x named))
  | JNull | JBool _ | JNumber _ | JString _ => Throw TypeError
  end.

Definition isArray (o : option JSValue) : bool :=
  match o with Some (JArray _ _) => true | _ => false end.

(** [parsed.k = Array.isArray(parsed.k) ? parsed.k : []] *)
Definition array_or_empty (k : string) (parsed : JSValue) : Completion JSValue :=
  let* current := get_prop parsed k in
  set_prop parsed k (match current with
                     | Some x => if isArray current then x else JArray [] []
                     | None => JArray [] []
                     end).

(** [parsed.k = parsed.k ?? ""] *)
Definition value_or_empty (k : string) (parsed : JSValue) : Completion JSValue :=
  let* current := get_prop parsed k in
  set_prop parsed k (match current with
                     | None | Some JNull => JString EmptyString
                     | Some x => x
                     end).

(** Lines 104-116. *)
Definition normalize (parsed : JSValue) : Completion JSValue :=
  let* parsed := array_or_empty "sections" parsed in
  let* parsed := array_or_empty "faqs" parsed in
  let* parsed := array_or_empty "affiliateBlocks" parsed in
  let* parsed := array_or_empty "imagePrompts" parsed in
  let* parsed := value_or_empty "callToAction" parsed in
  let* parsed := value_or_empty "metaDescription" parsed in
  let* parsed := value_or_empty "excerpt" parsed in
  let* parsed := value_or_empty "title" parsed in
  value_or_empty "slug" parsed.

(** The names lines 104-111 and 112-116 assign. *)
Definition list_fields : list string :=
  ["sections"; "faqs"; "affiliateBlocks"; "imagePrompts"].
Definition text_fields : list string :=
  ["callToAction"; "metaDescription"; "excerpt"; "title"; "slug"].

Definition parse_failure : Exception :=
  ErrorMessage "Failed to parse article response from model".

(** Lines 92-102: the content, or the literal when there is none. *)
Definition content_of (message : option string) : string :=
  match message with
  | Some text => Str.trim text
  | None => default_content
  end.

Definition parse_content (content : string) : Completion JSValue :=
  match JSON.parse content with
  | Some parsed => Return parsed
  | None => Throw parse_failure
  end.

End Draft.

(** The article of the literal of line 94, at its declared type. *)
Definition empty_article : GeneratedArticle :=
  {| title := EmptyString; slug := EmptyString; metaDescription := EmptyString;
     excerpt := EmptyString; sections := []; callToAction := EmptyString;
     faqs := []; affiliateBlocks := []; imagePrompts := [] |}.

Section AssembleArticle.

Context {Product : Type} `{!Services Product}.

Definition assembleArticle (productUrl : string) (payload : GenerationRequest)
    (productData : Product) : Completion JSValue :=
  let* openai := getOpenAIClient in
  let model := default "gpt-4o-mini" OPENAI_MODEL in
  let* links := buildAffiliateLinks basic_url_parser (affiliateConfig payload) productUrl in
  let* message :=
    openai {| model := model;
              instructions := payload;
              notes := default EmptyString (additionalNotes payload);
              affiliateLinks := links;
              product_data := productData |} in
  let* parsed := Draft.parse_content (Draft.content_of message) in
  Draft.normalize parsed.

End AssembleArticle.

(** ** The declared type of the draft *)

(** [JSON.parse(content) as GeneratedArticle] is an unchecked assertion.
    [as_GeneratedArticle] reads the normalised value at the declared type
    and is [None] for a value that does not have it; the pipeline below is
    the handler on the values that do. *)
Module Typed.

Definition own_props (v : JSValue) : option (list (string * JSValue)) :=
  match v with
  | JObject props => Some props
  | JArray _ named => Some named
  | _ => None
  end.

Definition as_string (o : option JSValue) : option string :=
  match o with Some (JString s) => Some s | _ => None end.

Definition as_array {A : Type} (item : JSValue -> option A) (o : option JSValue)
  : option (list A) :=
  match o with Some (JArray elements _) => mapM item elements | _ => None end.

Definition as_TextBlock (v : JSValue) : option TextBlock :=
  props ← own_props v;
  h ← as_string (Obj.get "heading" props);
  b ← as_string (Obj.get "body" props);
  Some {| heading := h; body := b |}.

Definition as_AffiliateBlock (v : JSValue) : option AffiliateBlock :=
  props ← own_props v;
  p ← as_string (Obj.get "platform" props);
  c ← as_string (Obj.get "context" props);
  l ← as_string (Obj.get "link" props);
  Some {| platform := p; context := c; link := l |}.

Definition as_GeneratedArticle (v : JSValue) : option GeneratedArticle :=
  props ← own_props v;
  t ← as_string (Obj.get "title" props);
  sl ← as_string (Obj.get "slug" props);
  md ← as_string (Obj.get "metaDescription" props);
  ex ← as_string (Obj.get "excerpt" props);
  ss ← as_array as_TextBlock (Obj.get "sections" props);
  cta ← as_string (Obj.get "callToAction" props);
  fs ← as_array as_TextBlock (Obj.get "faqs" props);
  abs ← as_array as_AffiliateBlock (Obj.get "affiliateBlocks" props);
  ips ← as_array (fun x => as_string (Some x)) (Obj.get "imagePrompts" props);
  Some {| title := t; slug := sl; metaDescription := md; excerpt := ex;
          sections := ss; callToAction := cta; faqs := fs;
          affiliateBlocks := abs; imagePrompts := ips |}.

End Typed.

(** ** POST *)

(** [Promise.all]: the values in the order of the promises, or a
    rejection when one of them rejects. *)
Fixpoint Promise_all {A : Type} (promises : list (Completion A)) : Completion (list A) :=
  match promises with
  | [] => Return []
  | promise :: rest =>
      let* value := promise in
      let* values := Promise_all rest in
      Return (value :: values)
  end.

(** The cap handed to the limiter on line 168. *)
Definition renderConcurrency : nat := 2.

Definition LF_char : ascii := Str.chr 10.

(** Lines 149-156, for one FAQ and the corrected text at its index. *)
Definition splitFaq (faq : TextBlock) (corrected : string) : TextBlock :=
  match Str.split LF_char corrected with
  | first :: bodyParts =>
      {| heading := Str.or_else first (heading faq);
         body := Str.or_else (Str.join Str.LF bodyParts) (body faq) |}
  | [] => faq
  end.

(** Lines 158-163. *)
Definition composeGeoHighlights (input : GenerationRequest) : list string :=
  [ "Optimized for " +:+ targetRegion input +:+ " audience";
    "Keywords: " +:+ Str.join ", " (seoKeywords input) ]
  ++ match additionalNotes input with
     | Some text => if Str.truthy text then [text] else []
     | None => []
     end.

(** The article after lines 144-156 and 183-201. *)
Definition correctedArticle (draft : GeneratedArticle)
    (sectionCheck correctedFaqs : Spellchecked (list string))
    (titleCheck metaCheck excerptCheck ctaCheck : Spellchecked string)
  : GeneratedArticle :=
  {| title := Str.trim (corrected titleCheck);
     slug := slug draft;
     metaDescription := Str.trim (corrected metaCheck);
     excerpt := Str.trim (corrected excerptCheck);
     sections :=
       imap (fun index section =>
               {| heading := heading section;
                  body := default (body section) (corrected sectionCheck !! index) |})
            (sections draft);
     callToAction := Str.trim (corrected ctaCheck);
     faqs :=
       imap (fun index faq =>
               splitFaq faq (default EmptyString (corrected correctedFaqs !! index)))
            (faqs draft);
     affiliateBlocks := affiliateBlocks draft;
     imagePrompts := imagePrompts draft |}.

(** Lines 203-218. *)
Definition responsePayload {Product : Type} (productData : Product)
    (checked : GeneratedArticle)
    (sectionCheck correctedFaqs : Spellchecked (list string))
    (titleCheck metaCheck excerptCheck ctaCheck : Spellchecked string)
    (highlights : list string) (generatedImages : list (option GeneratedImage))
  : GenerationResponse Product :=
  {| product := productData;
     article := checked;
     spellingAdjustments :=
       adjustments sectionCheck ++ adjustments correctedFaqs
       ++ adjustments titleCheck ++ adjustments metaCheck
       ++ adjustments excerptCheck ++ adjustments ctaCheck;
     geoHighlights := highlights;
     nanoBananaImages :=
       if Nat.eqb (length generatedImages) 0 then None else Some generatedImages |}.

(** The results of the six spell checks of one run, in the order of the
    calls that feed [spellingAdjustments]. *)
Record Checks : Type := mkChecks {
  sectionCheck : Spellchecked (list string);
  faqCheck : Spellchecked (list string);
  titleCheck : Spellchecked string;
  metaCheck : Spellchecked string;
  excerptCheck : Spellchecked string;
  ctaCheck : Spellchecked string
}.

Section Post.

Context {Product : Type} `{!Services Product}.

(** One call of line 173 for the prompt at [index]: the first element of
    the array the service resolves with. *)
Definition renderPrompt (index : nat) (prompt : string)
  : Completion (option GeneratedImage) :=
  let* res := generateNanoBananaImages index [prompt] in
  Return (head res).

(** Lines 170-176: every prompt goes through the limiter, which delays
    calls and changes no result. *)
Definition renderAll (prompts : list string) : Completion (list (option GeneratedImage)) :=
  Promise_all (imap renderPrompt prompts).

(** Lines 165-180: the value of [generatedImages] after the stage. *)
Definition imageStage (include : bool) (prompts : list string)
  : list (option GeneratedImage) :=
  if include && negb (Nat.eqb (length prompts) 0) then
    match renderAll prompts with
    | Return images => images
    | Throw imageError => []
    end
  else [].

Definition spellcheckFaqs (items : list TextBlock) (language : string)
  : Completion (Spellchecked (list string)) :=
  if Nat.eqb (length items) 0
  then Return {| corrected := []; adjustments := [] |}
  else spellcheckSections
         (map (fun faq => heading faq +:+ Str.LF +:+ body faq) items) language.

(** Lines 131-201, from the draft to the payload of the response. The
    image stage runs between the two batch checks and the four single
    checks and throws nothing. *)
Definition pipeline (input : GenerationRequest) (productData : Product)
    (draft : GeneratedArticle) : Completion (GenerationResponse Product) :=
  let language := targetLanguage input in
  let sectionBodies := map body (sections draft) in
  let* sectionCheck := spellcheckSections sectionBodies language in
  let* correctedFaqs := spellcheckFaqs (faqs draft) language in
  let highlights := composeGeoHighlights input in
  let generatedImages := imageStage (includeImages input) (imagePrompts draft) in
  let* titleCheck := runSpellcheck (title draft) language in
  let* metaCheck := runSpellcheck (metaDescription draft) language in
  let* excerptCheck := runSpellcheck (excerpt draft) language in
  let* ctaCheck := runSpellcheck (callToAction draft) language in
  Return (responsePayload productData
            (correctedArticle draft sectionCheck correctedFaqs
               titleCheck metaCheck excerptCheck ctaCheck)
            sectionCheck correctedFaqs titleCheck metaCheck excerptCheck ctaCheck
            highlights generatedImages).

(** The body of the [try] block, from the validated input on. [None]
    inside [Return] marks a draft outside its declared type. *)
Definition handle (input : GenerationRequest)
  : Completion (option (GenerationResponse Product)) :=
  let* productData := scrapeProductSnapshot (productUrl input) in
  let* parsed := assembleArticle (productUrl input) input productData in
  match Typed.as_GeneratedArticle parsed with
  | Some draft =>
      let* payload := pipeline input productData draft in
      Return (Some payload)
  | None => Return None
  end.

(** [POST] for a request body that passed [requestSchema.parse]: the
    payload with status 200, or the error with status 400 (lines
    220-232). *)
Definition POST (input : GenerationRequest) : option (HttpResponse Product) :=
  match handle input with
  | Return (Some payload) => Some (Json200 payload)
  | Return None => None
  | Throw error => Some (Json400 error)
  end.

(** *** The stages of a run *)

(** The draft of a run: the scraper and [assembleArticle] returned, and
    the normalised value has the declared type. *)
Definition Drafted (input : GenerationRequest) (productData : Product)
    (draft : GeneratedArticle) : Prop :=
  scrapeProductSnapshot (productUrl input) = Return productData
  /\ exists parsed,
       assembleArticle (productUrl input) input productData = Return parsed
       /\ Typed.as_GeneratedArticle parsed = Some draft.

(** The six spell checks of a run returned [ck]. *)
Definition Spellchecks (input : GenerationRequest) (draft : GeneratedArticle)
    (ck : Checks) : Prop :=
  let language := targetLanguage input in
  spellcheckSections (map body (sections draft)) language = Return (sectionCheck ck)
  /\ spellcheckFaqs (faqs draft) language = Return (faqCheck ck)
  /\ runSpellcheck (title draft) language = Return (titleCheck ck)
  /\ runSpellcheck (metaDescription draft) language = Return (metaCheck ck)
  /\ runSpellcheck (excerpt draft) language = Return (excerptCheck ck)
  /\ runSpellcheck (callToAction draft) language = Return (ctaCheck ck).

(** The payload of the run with draft [draft] and checks [ck]. *)
Definition payload_of (input : GenerationRequest) (productData : Product)
    (draft : GeneratedArticle) (ck : Checks) : GenerationResponse Product :=
  responsePayload productData
    (correctedArticle draft (sectionCheck ck) (faqCheck ck)
       (titleCheck ck) (metaCheck ck) (excerptCheck ck) (ctaCheck ck))
    (sectionCheck ck) (faqCheck ck) (titleCheck ck) (metaCheck ck)
    (excerptCheck ck) (ctaCheck ck)
    (composeGeoHighlights input)
    (imageStage (includeImages input) (imagePrompts draft)).

End Post.

(** ** The limiter (p-limit) *)

(** The queue discipline of [pLimit(concurrency)], as the image stage
    drives it. Handing a task to the limiter puts it in the queue and
    schedules a check; the check starts the head of the queue if fewer
    than [concurrency] tasks are active; a started task stays active until
    its call has settled and its [next] has run; [next] gives the place to
    the head of the queue. A task is the position of its prompt. *)
Module Limiter.

Record State : Type := mkState {
  submitted : nat;          (* prompts handed to the limiter so far *)
  queue : list nat;         (* waiting, first in first out *)
  checks : nat;             (* scheduled checks that have not run *)
  activeCount : nat;
  in_flight : list nat;     (* render calls started and not settled *)
  settled : nat;            (* calls settled whose [next] has not run *)
  started : list nat        (* every task started so far, in order *)
}.

Definition init : State :=
  {| submitted := 0; queue := []; checks := 0; activeCount := 0;
     in_flight := []; settled := 0; started := [] |}.

Inductive Event : Type :=
  | Submit            (* [limiter(fn)] for the next prompt of the map *)
  | Check             (* the check scheduled by a submission runs *)
  | Settle (task : nat)   (* the render call of [task] resolves or rejects *)
  | Next.             (* the [next] of a settled call runs *)

(** Start the head of the queue, if there is one. *)
Definition dequeue_run (s : State) : State :=
  match queue s with
  | task :: rest =>
      {| submitted := submitted s; queue := rest; checks := checks s;
         activeCount := S (activeCount s); in_flight := in_flight s ++ [task];
         settled := settled s; started := started s ++ [task] |}
  | [] => s
  end.

Fixpoint remove_task (task : nat) (l : list nat) : option (list nat) :=
  match l with
  | [] => None
  | t :: rest =>
      if Nat.eqb t task then Some rest
      else cons t <$> remove_task task rest
  end.

(** One event on a limiter for [total] prompts; [None] when the event
    cannot happen in the state. *)
Definition fire (concurrency total : nat) (e : Event) (s : State) : option State :=
  match e with
  | Submit =>
      if Nat.ltb (submitted s) total then
        Some {| submitted := S (submitted s); queue := queue s ++ [submitted s];
                checks := S (checks s); activeCount := activeCount s;
                in_flight := in_flight s; settled := settled s; started := started s |}
      else None
  | Check =>
      match checks s with
      | S n =>
          let s' := {| submitted := submitted s; queue := queue s; checks := n;
                       activeCount := activeCount s; in_flight := in_flight s;
                       settled := settled s; started := started s |} in
          Some (if Nat.ltb (activeCount s) concurrency then dequeue_run s' else s')
      | O => None
      end
  | Settle task =>
      match remove_task task (in_flight s) with
      | Some others =>
          Some {| submitted := submitted s; queue := queue s; checks := checks s;
                  activeCount := activeCount s; in_flight := others;
                  settled := S (settled s); started := started s |}
      | None => None
      end
  | Next =>
      match settled s with
      | S n =>
          Some (dequeue_run
                  {| submitted := submitted s; queue := queue s; checks := checks s;
                     activeCount := pred (activeCount s); in_flight := in_flight s;
                     settled := n; started := started s |})
      | O => None
      end
  end.

Fixpoint run (concurrency total : nat) (events : list Event) (s : State) : option State :=
  match events with
  | [] => Some s
  | e :: rest =>
      match fire concurrency total e s with
      | Some s' => run concurrency total rest s'
      | None => None
      end
  end.

End Limiter.

(** ** Concrete runs *)

(** Services that answer without a network, for evaluating the handler:
    the chat client answers [message], the batch spell check is
    [checkBatch], image call [i] is [render i]; a single text is returned
    unchanged with one adjustment that names it. *)
Module Sample.

Definition member (k v : string) : string := Draft.quoted k +:+ ":" +:+ v.
Definition object (members : list string) : string := "{" +:+ Str.join "," members +:+ "}".
Definition array (items : list string) : string := "[" +:+ Str.join "," items +:+ "]".

(** A draft that leaves out metaDescription, excerpt, callToAction and
    affiliateBlocks. *)
Definition content (prompts : list string) : string :=
  object
    [ member "title" (Draft.quoted "Kettle review");
      member "slug" (Draft.quoted "kettle-review");
      member "sections"
        (array [ object [ member "heading" (Draft.quoted "Intro");
                          member "body" (Draft.quoted "Boils fast") ] ]);
      member "faqs"
        (array [ object [ member "heading" (Draft.quoted "Is it loud?");
                          member "body" (Draft.quoted "No") ] ]);
      member "imagePrompts" (array (map Draft.quoted prompts)) ].

Definition keep_batch (note : string) (blocks : list string) (language : string)
  : Completion (Spellchecked (list string)) :=
  Return {| corrected := blocks; adjustments := map (fun b => note +:+ b) blocks |}.

(** A batch check that loses the line break: it answers with [flat] for
    every block. *)
Definition flatten_batch (flat : string) (blocks : list string) (language : string)
  : Completion (Spellchecked (list string)) :=
  Return {| corrected := map (fun _ => flat) blocks; adjustments := [] |}.

Definition keep_text (text language : string) : Completion (Spellchecked string) :=
  Return {| corrected := text; adjustments := ["text: " +:+ text] |}.

Definition image (n : string) : GeneratedImage :=
  {| imageUrl := "https://img.example/" +:+ n; prompt := n |}.

Definition render_ok (index : nat) (prompts : list string)
  : Completion (list GeneratedImage) :=
  Return (map image prompts).

(** Every call resolves but call [bad], which rejects. *)
Definition render_but (bad : nat) (index : nat) (prompts : list string)
  : Completion (list GeneratedImage) :=
  if Nat.eqb index bad then Throw (ErrorMessage "Nano Banana request failed")
  else render_ok index prompts.

Definition services (message : option string)
    (checkBatch : list string -> string -> Completion (Spellchecked (list string)))
    (render : nat -> list string -> Completion (list GeneratedImage))
  : Services string :=
  {| OPENAI_MODEL := None;
     scrapeProductSnapshot := fun url => Return ("snapshot of " +:+ url);
     getOpenAIClient := Return (fun _ => Return message);
     spellcheckSections := checkBatch;
     runSpellcheck := keep_text;
     generateNanoBananaImages := render;
     basic_url_parser := Url.parse_plain |}.

Definition amazon : AffiliateEntry :=
  {| baseUrl := Some "https://amzn.to/x"; tag := Some "tag123" |}.

Definition request (images : bool) (extra : option string) : GenerationRequest :=
  {| productUrl := "https://example.com/p";
     targetLanguage := "pt-BR";
     targetRegion := "Brazil";
     seoKeywords := ["melhor preço"; "review completo"];
     persona := "Especialista";
     tone := "Conversacional";
     minimumWordCount := QArith_base.Qmake 1800 1;
     includeImages := images;
     affiliateConfig := {[ "amazon" := Some amazon ]};
     additionalNotes := extra |}.

(** The draft [content prompts] normalises to. *)
Definition draft (prompts : list string) : GeneratedArticle :=
  {| title := "Kettle review"; slug := "kettle-review"; metaDescription := EmptyString;
     excerpt := EmptyString;
     sections := [ {| heading := "Intro"; body := "Boils fast" |} ];
     callToAction := EmptyString;
     faqs := [ {| heading := "Is it loud?"; body := "No" |} ];
     affiliateBlocks := []; imagePrompts := prompts |}.

Definition snapshot : string := "snapshot of https://example.com/p".

(** The results of the six checks on [draft] with [keep_batch note]. *)
Definition checks (note : string) : Checks :=
  {| sectionCheck :=
       {| corrected := ["Boils fast"]; adjustments := [note +:+ "Boils fast"] |};
     faqCheck :=
       {| corrected := ["Is it loud?" +:+ Str.LF +:+ "No"];
          adjustments := [note +:+ "Is it loud?" +:+ Str.LF +:+ "No"] |};
     titleCheck := {| corrected := "Kettle review"; adjustments := ["text: Kettle review"] |};
     metaCheck := {| corrected := EmptyString; adjustments := ["text: "] |};
     excerptCheck := {| corrected := EmptyString; adjustments := ["text: "] |};
     ctaCheck := {| corrected := EmptyString; adjustments := ["text: "] |} |}.

End Sample.

(** ** The form (src/app/page.tsx) *)

Module Page.

(** The separators of [split(/\n|,/)]: a line feed or a comma. *)
Definition is_separator (c : ascii) : bool :=
  Ascii.eqb c LF_char || Ascii.eqb c ","%char.

(** [s.split(re)] for a pattern that matches one character of a class. *)
Fixpoint split_where (sep : ascii -> bool) (s : string) : list string :=
  match s with
  | EmptyString => [EmptyString]
  | String c rest =>
      if sep c then EmptyString :: split_where sep rest
      else match split_where sep rest with
           | piece :: pieces => String c piece :: pieces
           | [] => [String c EmptyString]
           end
  end.

(** [keywordList]: the keywords typed in the form, cut at line feeds and
    commas, trimmed, the empty ones left out. *)
Definition keywordList (seoKeywords : string) : list string :=
  List.filter Str.truthy (map Str.trim (split_where is_separator seoKeywords)).

(** The state [affiliates]: a platform has no entry until one of its two
    inputs is edited. *)
Abbreviation AffiliateInputs := (gmap string AffiliateEntry).

(** The [onChange] of the base URL input of platform [key]. *)
Definition onBaseUrlChange (key value : string) (prev : AffiliateInputs) : AffiliateInputs :=
  <[key := {| baseUrl := Some value;
              tag := Some (default EmptyString (prev !! key ≫= tag)) |}]> prev.

(** The [onChange] of the tag input of platform [key]. *)
Definition onTagChange (key value : string) (prev : AffiliateInputs) : AffiliateInputs :=
  <[key := {| baseUrl := Some (default EmptyString (prev !! key ≫= baseUrl));
              tag := Some value |}]> prev.

Inductive Edit : Type :=
  | EditBaseUrl (key value : string)
  | EditTag (key value : string).

Definition edited (e : Edit) : string :=
  match e with EditBaseUrl key _ | EditTag key _ => key end.

Definition apply (e : Edit) (prev : AffiliateInputs) : AffiliateInputs :=
  match e with
  | EditBaseUrl key value => onBaseUrlChange key value prev
  | EditTag key value => onTagChange key value prev
  end.

(** The state after a series of edits of the empty form, first edit
    first. *)
Definition after_edits (edits : list Edit) : AffiliateInputs :=
  foldl (fun state e => apply e state) ∅ edits.

(** [affiliateConfig: affiliates] in the body of the request: every
    property of the state is sent with its entry. *)
Definition affiliateConfig_of (state : AffiliateInputs) : AffiliateLinkConfig :=
  Some <$> state.

End Page.

(** The services with another image generator. *)
Definition with_images {Product : Type} (services : Services Product)
    (render : nat -> list string -> Completion (list GeneratedImage)) : Services Product :=
  {| OPENAI_MODEL := @OPENAI_MODEL Product services;
     scrapeProductSnapshot := @scrapeProductSnapshot Product services;
     getOpenAIClient := @getOpenAIClient Product services;
     spellcheckSections := @spellcheckSections Product services;
     runSpellcheck := @runSpellcheck Product services;
     generateNanoBananaImages := render;
     basic_url_parser := @basic_url_parser Product services |}.

(** Further services for concrete runs. *)
Module Runs.

(** Every image call resolves; call [hollow] resolves with no image. *)
Definition render_hollow (hollow : nat) (index : nat) (prompts : list string)
  : Completion (list GeneratedImage) :=
  if Nat.eqb index hollow then Return [] else Sample.render_ok index prompts.

(** A single check that rejects the text [bad] and keeps any other. *)
Definition reject_text (bad : string) (text language : string)
  : Completion (Spellchecked string) :=
  if String.eqb text bad then Throw (ErrorMessage "dictionary unavailable")
  else Sample.keep_text text language.

(** The sample services with another single check. *)
Definition with_check (message : option string)
    (check : string -> string -> Completion (Spellchecked string)) : Services string :=
  {| OPENAI_MODEL := None;
     scrapeProductSnapshot := fun url => Return ("snapshot of " +:+ url);
     getOpenAIClient := Return (fun _ => Return message);
     spellcheckSections := Sample.keep_batch "block: ";
     runSpellcheck := check;
     generateNanoBananaImages := Sample.render_ok;
     basic_url_parser := Url.parse_plain |}.


End Runs.



(** ** Auxiliary definitions of the proofs *)

(** What the assignments leave in a property list. *)
Definition array_default (o : option JSValue) : JSValue :=
  match o with
  | Some (JArray elements named) => JArray elements named
  | _ => JArray [] []
  end.

Definition text_default (o : option JSValue) : JSValue :=
  match o with
  | None | Some JNull => JString EmptyString
  | Some x => x
  end.

Definition set_array (k : string) (ps : list (string * JSValue)) :=
  Obj.set k (array_default (Obj.get k ps)) ps.

Definition set_text (k : string) (ps : list (string * JSValue)) :=
  Obj.set k (text_default (Obj.get k ps)) ps.

Definition normalized_props (ps : list (string * JSValue)) : list (string * JSValue) :=
  set_text "slug" (set_text "title" (set_text "excerpt" (set_text "metaDescription"
    (set_text "callToAction" (set_array "imagePrompts" (set_array "affiliateBlocks"
      (set_array "faqs" (set_array "sections" ps)))))))).

(** The link [buildAffiliateLinks] stores for a present entry, when its
    base URL parses. *)
Definition link_of (parser : string -> option Url.Parsed) (productUrl : string)
    (config : AffiliateEntry) : option string :=
  match affiliate_url parser config productUrl with
  | Return url => Some (Url.toString url)
  | Throw _ => None
  end.

(** The invariant of the limiter: the active tasks are the calls in
    flight and the settled ones that wait for their [next]; their number
    is within the cap; the submitted prompts are those started followed by
    the queue. *)
Definition limiter_inv (concurrency total : nat) (s : Limiter.State) : Prop :=
  Limiter.activeCount s = length (Limiter.in_flight s) + Limiter.settled s
  /\ Limiter.activeCount s <= concurrency
  /\ Limiter.started s ++ Limiter.queue s = seq 0 (Limiter.submitted s)
  /\ Limiter.submitted s <= total
  /\ Limiter.in_flight s ⊆ Limiter.started s.


(** The pairs of a parameter list whose name satisfies [keep]. *)
Definition pairs_where (keep : string -> bool) (l : list (string * string))
  : list (string * string) :=
  List.filter (fun pair => keep (fst pair)) l.

(** While a place is free, every waiting prompt still has its check
    scheduled. *)
Definition limiter_busy (concurrency : nat) (s : Limiter.State) : Prop :=
  Limiter.activeCount s < concurrency ->
  length (Limiter.queue s) <= Limiter.checks s.

(** * Properties *)

(** ** Completions *)

Lemma bindC_Return {A B : Type} (c : Completion A) (k : A -> Completion B) (b : B) :
  bindC c k = Return b <-> exists a, c = Return a /\ k a = Return b.
Proof.
  split.
  - destruct c as [a|e]; simpl; [eauto | discriminate].
  - intros (a & -> & Hk). exact Hk.
Qed.

(** ** Strings *)

Lemma split_not_nil (sep : ascii) (s : string) : Str.split sep s <> [].
Proof.
  destruct s as [|c rest]; simpl; [discriminate |].
  destruct (Ascii.eqb c sep); [discriminate |].
  by destruct (Str.split sep rest).
Qed.

Lemma concat_cons_char (sep : string) (c : ascii) (piece : string) (pieces : list string) :
  String.concat sep (String c piece :: pieces) = String c (String.concat sep (piece :: pieces)).
Proof. by destruct pieces. Qed.

(** Joining the pieces of a split with the separator gives the text back. *)
Lemma join_split (sep : ascii) (s : string) :
  Str.join (String sep EmptyString) (Str.split sep s) = s.
Proof.
  unfold Str.join. induction s as [|c rest IH]; simpl; [reflexivity |].
  destruct (Ascii.eqb_spec c sep) as [->|Hne].
  - pose proof (split_not_nil sep rest) as Hnil.
    destruct (Str.split sep rest) as [|piece pieces]; [done |].
    simpl in *. by rewrite IH.
  - pose proof (split_not_nil sep rest) as Hnil.
    destruct (Str.split sep rest) as [|piece pieces]; [done |].
    rewrite concat_cons_char. by rewrite IH.
Qed.

Lemma split_no_sep (sep : ascii) (s : string) :
  Str.contains sep s = false -> Str.split sep s = [s].
Proof.
  induction s as [|c rest IH]; simpl; [reflexivity |].
  intros [Hc Hrest]%orb_false_iff. rewrite Hc, (IH Hrest). reflexivity.
Qed.

Lemma split_at_first (sep : ascii) (before after : string) :
  Str.contains sep before = false ->
  Str.split sep (before +:+ String sep after) = before :: Str.split sep after.
Proof.
  induction before as [|c rest IH]; simpl.
  - intros _. by rewrite Ascii.eqb_refl.
  - intros [Hc Hrest]%orb_false_iff. rewrite Hc, (IH Hrest). reflexivity.
Qed.

(** ** The FAQ split (lines 149-156) *)

(** C2, as the code has it: the corrected text is cut at its first line
    break; the part before it is the heading and the part after it the
    body, each replaced by the original when it is empty. A corrected text
    without a line break is the heading (the original heading if it is
    empty), and the original body is kept. *)
Theorem faq_split_at_first_newline (faq : TextBlock) (before after : string) :
  Str.contains LF_char before = false ->
  splitFaq faq (before +:+ Str.LF +:+ after)
    = {| heading := Str.or_else before (heading faq);
         body := Str.or_else after (body faq) |}
  /\ splitFaq faq before
    = {| heading := Str.or_else before (heading faq); body := body faq |}.
Proof.
  intros Hnl. unfold splitFaq. split.
  - change (before +:+ Str.LF +:+ after) with (before +:+ String LF_char after).
    rewrite (split_at_first _ _ _ Hnl).
    change Str.LF with (String LF_char EmptyString).
    by rewrite join_split.
  - by rewrite (split_no_sep _ _ Hnl).
Qed.

Lemma faq_split_at_first_newline_witness :
  splitFaq {| heading := "Loud?"; body := "No" |} ("Is it loud?" +:+ Str.LF +:+ "Not at all")
    = {| heading := "Is it loud?"; body := "Not at all" |}
  /\ splitFaq {| heading := "Loud?"; body := "No" |} "Is it loud?"
    = {| heading := "Is it loud?"; body := "No" |}.
Proof.
  exact (faq_split_at_first_newline {| heading := "Loud?"; body := "No" |}
           "Is it loud?" "Not at all" eq_refl).
Defined.

(** C2 fails as stated: for a corrected text without a line break the
    FAQ does not keep its heading with the corrected text as body; the
    corrected text becomes the heading and the body stays. *)
Lemma faq_without_newline_becomes_heading :
  let faq := {| heading := "Is it loud?"; body := "No" |} in
  Str.contains LF_char "Is it noisy?" = false
  /\ splitFaq faq "Is it noisy?" = {| heading := "Is it noisy?"; body := "No" |}
  /\ splitFaq faq "Is it noisy?" <> {| heading := heading faq; body := "Is it noisy?" |}.
Proof. cbv zeta. split; [reflexivity | split; [reflexivity | discriminate]]. Qed.

(** ** Objects *)

Lemma get_set {V : Type} (k k' : string) (x : V) (ps : list (string * V)) :
  Obj.get k (Obj.set k' x ps) = if String.eqb k k' then Some x else Obj.get k ps.
Proof.
  induction ps as [|[k0 v0] rest IH]; simpl.
  - rewrite (String.eqb_sym k k'). by destruct (String.eqb k' k).
  - destruct (String.eqb_spec k' k0) as [->|Hne]; simpl.
    + rewrite (String.eqb_sym k k0). by destruct (String.eqb k0 k).
    + destruct (String.eqb_spec k k0) as [->|Hne'].
      * destruct (String.eqb_spec k0 k') as [Heq|_]; [by subst | done].
      * exact IH.
Qed.

(** ** The normalisation of the draft (lines 104-116) *)

Lemma array_or_empty_object (k : string) (ps : list (string * JSValue)) :
  Draft.array_or_empty k (JObject ps) = Return (JObject (set_array k ps)).
Proof.
  unfold Draft.array_or_empty, set_array, array_default. simpl.
  by destruct (Obj.get k ps) as [[]|].
Qed.

Lemma array_or_empty_array (k : string) (es : list JSValue) (ps : list (string * JSValue)) :
  Draft.array_or_empty k (JArray es ps) = Return (JArray es (set_array k ps)).
Proof.
  unfold Draft.array_or_empty, set_array, array_default. simpl.
  by destruct (Obj.get k ps) as [[]|].
Qed.

Lemma value_or_empty_object (k : string) (ps : list (string * JSValue)) :
  Draft.value_or_empty k (JObject ps) = Return (JObject (set_text k ps)).
Proof.
  unfold Draft.value_or_empty, set_text, text_default. simpl.
  by destruct (Obj.get k ps) as [[]|].
Qed.

Lemma value_or_empty_array (k : string) (es : list JSValue) (ps : list (string * JSValue)) :
  Draft.value_or_empty k (JArray es ps) = Return (JArray es (set_text k ps)).
Proof.
  unfold Draft.value_or_empty, set_text, text_default. simpl.
  by destruct (Obj.get k ps) as [[]|].
Qed.

Lemma normalize_object (ps : list (string * JSValue)) :
  Draft.normalize (JObject ps) = Return (JObject (normalized_props ps)).
Proof.
  unfold Draft.normalize.
  repeat (rewrite array_or_empty_object; cbn [bindC]).
  repeat (rewrite value_or_empty_object; cbn [bindC]).
  reflexivity.
Qed.

Lemma normalize_array (es : list JSValue) (ps : list (string * JSValue)) :
  Draft.normalize (JArray es ps) = Return (JArray es (normalized_props ps)).
Proof.
  unfold Draft.normalize.
  repeat (rewrite array_or_empty_array; cbn [bindC]).
  repeat (rewrite value_or_empty_array; cbn [bindC]).
  reflexivity.
Qed.

Ltac get_through_sets :=
  unfold normalized_props, set_text, set_array;
  repeat (rewrite get_set; cbn [String.eqb Ascii.eqb Bool.eqb]).

Lemma normalized_list_field (k : string) (ps : list (string * JSValue)) :
  k ∈ Draft.list_fields ->
  Obj.get k (normalized_props ps) = Some (array_default (Obj.get k ps)).
Proof.
  unfold Draft.list_fields. rewrite !elem_of_cons, elem_of_nil.
  intros [->|[->|[->|[->|[]]]]]; get_through_sets; reflexivity.
Qed.

Lemma normalized_text_field (k : string) (ps : list (string * JSValue)) :
  k ∈ Draft.text_fields ->
  Obj.get k (normalized_props ps) = Some (text_default (Obj.get k ps)).
Proof.
  unfold Draft.text_fields. rewrite !elem_of_cons, elem_of_nil.
  intros [->|[->|[->|[->|[->|[]]]]]]; get_through_sets; reflexivity.
Qed.

(** C5, as the code has it: when the payload parses to an object (or an
    array), the normalisation returns, every list field that is absent or
    not an array is the empty array, every text field that is absent or
    null is the empty string, every other value is kept as it is, and so
    each of the nine fields is present and not null afterwards. *)
Theorem normalize_fills_absent_fields (parsed : JSValue) (props : list (string * JSValue)) :
  Typed.own_props parsed = Some props ->
  exists normalized filled,
    Draft.normalize parsed = Return normalized
    /\ Typed.own_props normalized = Some filled
    /\ (forall k, k ∈ Draft.list_fields ->
          Obj.get k filled
            = Some (match Obj.get k props with
                    | Some (JArray elements named) => JArray elements named
                    | _ => JArray [] []
                    end))
    /\ (forall k, k ∈ Draft.text_fields ->
          Obj.get k filled
            = Some (match Obj.get k props with
                    | None | Some JNull => JString EmptyString
                    | Some x => x
                    end))
    /\ (forall k, k ∈ Draft.list_fields ++ Draft.text_fields ->
          exists x, Obj.get k filled = Some x /\ x <> JNull).
Proof.
  intros Hprops.
  assert (Hfields : forall k,
    (k ∈ Draft.list_fields ->
       Obj.get k (normalized_props props) = Some (array_default (Obj.get k props)))
    /\ (k ∈ Draft.text_fields ->
       Obj.get k (normalized_props props) = Some (text_default (Obj.get k props)))).
  { intros k. split; [apply normalized_list_field | apply normalized_text_field]. }
  assert (Hpresent : forall k, k ∈ Draft.list_fields ++ Draft.text_fields ->
    exists x, Obj.get k (normalized_props props) = Some x /\ x <> JNull).
  { intros k [Hk|Hk]%elem_of_app.
    - rewrite (proj1 (Hfields k) Hk). eexists; split; [reflexivity |].
      unfold array_default. by destruct (Obj.get k props) as [[]|].
    - rewrite (proj2 (Hfields k) Hk). eexists; split; [reflexivity |].
      unfold text_default. by destruct (Obj.get k props) as [[]|]. }
  destruct parsed as [| | | |es ps|ps]; simpl in Hprops; try discriminate;
    injection Hprops as ->.
  - exists (JArray es (normalized_props props)), (normalized_props props).
    split; [apply normalize_array |]. split; [reflexivity |].
    split; [intros k Hk; apply (proj1 (Hfields k) Hk) |].
    split; [intros k Hk; apply (proj2 (Hfields k) Hk) | exact Hpresent].
  - exists (JObject (normalized_props props)), (normalized_props props).
    split; [apply normalize_object |]. split; [reflexivity |].
    split; [intros k Hk; apply (proj1 (Hfields k) Hk) |].
    split; [intros k Hk; apply (proj2 (Hfields k) Hk) | exact Hpresent].
Qed.

Lemma normalize_fills_absent_fields_witness :
  exists normalized filled,
    Draft.normalize (JObject [("title", JString "Kettle"); ("faqs", JNull)])
      = Return normalized
    /\ Typed.own_props normalized = Some filled
    /\ (forall k, k ∈ Draft.list_fields ->
          Obj.get k filled
            = Some (match Obj.get k [("title", JString "Kettle"); ("faqs", JNull)] with
                    | Some (JArray elements named) => JArray elements named
                    | _ => JArray [] []
                    end))
    /\ (forall k, k ∈ Draft.text_fields ->
          Obj.get k filled
            = Some (match Obj.get k [("title", JString "Kettle"); ("faqs", JNull)] with
                    | None | Some JNull => JString EmptyString
                    | Some x => x
                    end))
    /\ (forall k, k ∈ Draft.list_fields ++ Draft.text_fields ->
          exists x, Obj.get k filled = Some x /\ x <> JNull).
Proof.
  exact (normalize_fills_absent_fields
           (JObject [("title", JString "Kettle"); ("faqs", JNull)])
           [("title", JString "Kettle"); ("faqs", JNull)] eq_refl).
Defined.

(** C5 fails as stated, twice. A text field of the wrong shape is not
    coerced: a numeric title stays a number. And a payload that parses to
    a value that is no object is not normalised at all: for [null] the
    first assignment throws. *)
Lemma wrong_shape_title_is_kept :
  (exists parsed normalized,
     JSON.parse ("{" +:+ Draft.quoted "title" +:+ ":42}") = Some parsed
     /\ Draft.normalize parsed = Return normalized
     /\ Draft.get_prop normalized "title" = Return (Some (JNumber "42"))
     /\ Draft.get_prop normalized "title" <> Return (Some (JString EmptyString)))
  /\ JSON.parse "null" = Some JNull
  /\ Draft.normalize JNull = Throw TypeError.
Proof.
  split; [| split; reflexivity].
  eexists _, _. split; [vm_compute; reflexivity |].
  split; [vm_compute; reflexivity |].
  split; [reflexivity | discriminate].
Qed.

(** ** buildAffiliateLinks (lines 36-49) *)

Lemma get_remove_name_ne (name other : string) (l : list (string * string)) :
  name <> other ->
  Url.searchParams_get name (Url.remove_name other l) = Url.searchParams_get name l.
Proof.
  intros Hne. induction l as [|[n v] rest IH]; simpl; [reflexivity |].
  destruct (String.eqb_spec n other) as [->|Hno]; simpl.
  - destruct (String.eqb_spec other name) as [Heq|_]; [by subst | exact IH].
  - by rewrite IH.
Qed.

Lemma get_set_pair_eq (name value : string) (l : list (string * string)) :
  Url.searchParams_get name (Url.set_pair name value l) = Some value.
Proof.
  induction l as [|[n v] rest IH]; simpl.
  - by rewrite String.eqb_refl.
  - destruct (String.eqb_spec n name) as [->|Hne]; simpl.
    + by rewrite String.eqb_refl.
    + destruct (String.eqb_spec n name) as [Heq|_]; [by subst | exact IH].
Qed.

Lemma get_set_pair_ne (name other value : string) (l : list (string * string)) :
  name <> other ->
  Url.searchParams_get name (Url.set_pair other value l) = Url.searchParams_get name l.
Proof.
  intros Hne. induction l as [|[n v] rest IH]; simpl.
  - destruct (String.eqb_spec other name) as [Heq|_]; [by subst | reflexivity].
  - destruct (String.eqb_spec n other) as [->|Hno]; simpl.
    + destruct (String.eqb_spec other name) as [Heq|_]; [by subst |].
      by apply get_remove_name_ne.
    + by rewrite IH.
Qed.

Lemma truthy_append (a b : string) :
  Str.truthy (a +:+ b) = Str.truthy a || Str.truthy b.
Proof. by destruct a. Qed.

Lemma serialize_truthy (l : list (string * string)) :
  l <> [] -> Str.truthy (Url.serialize l) = true.
Proof.
  destruct l as [|[n v] rest]; [done |]. intros _.
  unfold Url.serialize, Str.join. simpl.
  destruct (map _ rest);
    rewrite ?truthy_append; simpl; by rewrite ?orb_true_r.
Qed.

Lemma set_pair_not_nil (name value : string) (l : list (string * string)) :
  Url.set_pair name value l <> [].
Proof. destruct l as [|[n v] rest]; simpl; [done |]. by destruct (String.eqb n name). Qed.

(** The URL of a present entry: the parsed base URL, with [ref] and
    [target] among its parameters and the query written from them. *)
Lemma affiliate_url_spec (parser : string -> option Url.Parsed)
    (config : AffiliateEntry) (productUrl : string) (parsed : Url.Parsed) :
  parser (to_USVString (baseUrl config)) = Some parsed ->
  exists url,
    affiliate_url parser config productUrl = Return url
    /\ Url.base url = Url.p_base parsed
    /\ Url.fragment url = Url.p_fragment parsed
    /\ Url.query url = Some (Url.serialize (Url.params url))
    /\ Url.searchParams_get "ref" (Url.params url) = Some (to_USVString (tag config))
    /\ Url.searchParams_get "target" (Url.params url) = Some productUrl.
Proof.
  intros Hparse. unfold affiliate_url, Url.new_URL. rewrite Hparse. cbn [bindC].
  eexists. split; [reflexivity |]. cbn [Url.searchParams_set Url.base Url.fragment
    Url.query Url.params].
  split; [reflexivity |]. split; [reflexivity |].
  split; [by rewrite serialize_truthy by apply set_pair_not_nil |].
  split; [| apply get_set_pair_eq].
  rewrite get_set_pair_ne by discriminate. apply get_set_pair_eq.
Qed.

Lemma build_loop_spec (parser : string -> option Url.Parsed) (productUrl : string)
    (entries : list (string * option AffiliateEntry)) (acc : gmap string string) :
  NoDup entries.*1 ->
  (forall p e, (p, Some e) ∈ entries -> is_Some (link_of parser productUrl e)) ->
  exists links,
    build_loop parser entries productUrl acc = Return links
    /\ forall p,
         links !! p
           = match (list_to_map entries : gmap string (option AffiliateEntry)) !! p with
             | Some (Some e) => link_of parser productUrl e
             | _ => acc !! p
             end.
Proof.
  revert acc. induction entries as [|[k [e|]] rest IH]; intros acc Hnodup Hlinks.
  - exists acc. split; [reflexivity |]. intros p. by rewrite list_to_map_nil, lookup_empty.
  - apply NoDup_cons in Hnodup as [Hk Hnodup].
    destruct (Hlinks k e) as [s Hs]; [left |].
    destruct (IH (<[k := s]> acc) Hnodup) as (links & Hrun & Hlook).
    { intros p e' Hin. apply (Hlinks p e'). by right. }
    exists links. split.
    + simpl. unfold link_of in Hs.
      destruct (affiliate_url parser e productUrl) as [url|]; [| discriminate].
      injection Hs as <-. exact Hrun.
    + intros p. rewrite Hlook. simpl. destruct (decide (p = k)) as [->|Hne].
      * rewrite lookup_insert_eq.
        rewrite (not_elem_of_list_to_map_1 _ _ Hk). by rewrite lookup_insert_eq.
      * by rewrite !(lookup_insert_ne _ k p) by congruence.
  - apply NoDup_cons in Hnodup as [Hk Hnodup].
    destruct (IH acc Hnodup) as (links & Hrun & Hlook).
    { intros p e' Hin. apply (Hlinks p e'). by right. }
    exists links. split; [exact Hrun |].
    intros p. rewrite Hlook. simpl. destruct (decide (p = k)) as [->|Hne].
    + rewrite lookup_insert_eq. by rewrite (not_elem_of_list_to_map_1 _ _ Hk).
    + by rewrite (lookup_insert_ne _ k p) by congruence.
Qed.

(** C6, as the code has it: when every present entry has a base URL and a
    tag and the base URL parses, the builder returns; each platform whose
    entry is present gets the parsed base URL with the tag as the
    parameter [ref] and the product URL as the parameter [target]; a
    platform without an entry (not configured, or [undefined]) gets no
    link. *)
Theorem affiliate_links_of_present_entries (parser : string -> option Url.Parsed)
    (config : AffiliateLinkConfig) (productUrl : string) :
  (forall p e, config !! p = Some (Some e) ->
     exists b t, baseUrl e = Some b /\ tag e = Some t /\ is_Some (parser b)) ->
  exists links,
    buildAffiliateLinks parser config productUrl = Return links
    /\ (forall p b t,
          config !! p = Some (Some {| baseUrl := Some b; tag := Some t |}) ->
          exists parsed url,
            parser b = Some parsed
            /\ links !! p = Some (Url.toString url)
            /\ Url.base url = Url.p_base parsed
            /\ Url.fragment url = Url.p_fragment parsed
            /\ Url.query url = Some (Url.serialize (Url.params url))
            /\ Url.searchParams_get "ref" (Url.params url) = Some t
            /\ Url.searchParams_get "target" (Url.params url) = Some productUrl)
    /\ (forall p, config !! p = None \/ config !! p = Some None -> links !! p = None).
Proof.
  intros Hvalid.
  destruct (build_loop_spec parser productUrl (map_to_list config) ∅)
    as (links & Hrun & Hlook).
  { apply NoDup_fst_map_to_list. }
  { intros p e Hin%elem_of_map_to_list.
    destruct (Hvalid p e Hin) as (b & t & Hb & Ht & [parsed Hparse]).
    destruct (affiliate_url_spec parser e productUrl parsed) as (url & Hurl & _).
    - by rewrite Hb.
    - unfold link_of. rewrite Hurl. by eexists. }
  exists links. split; [exact Hrun |].
  assert (Hlook' : forall p, links !! p
            = match config !! p with
              | Some (Some e) => link_of parser productUrl e
              | _ => None
              end).
  { intros p. rewrite Hlook, list_to_map_to_list, lookup_empty.
    by destruct (config !! p) as [[e|]|]. }
  split.
  - intros p b t Hp.
    destruct (Hvalid _ _ Hp) as (b' & t' & [= <-] & [= <-] & [parsed Hparse]).
    destruct (affiliate_url_spec parser {| baseUrl := Some b; tag := Some t |}
                productUrl parsed Hparse)
      as (url & Hurl & Hbase & Hfrag & Hquery & Href & Htarget).
    exists parsed, url. rewrite Hlook', Hp. unfold link_of. rewrite Hurl.
    repeat split; assumption.
  - intros p [Hp|Hp]; by rewrite Hlook', Hp.
Qed.

Lemma affiliate_links_of_present_entries_witness :
  exists links,
    buildAffiliateLinks Url.parse_plain {[ "amazon" := Some Sample.amazon ]}
      "https://example.com/p" = Return links
    /\ (forall p b t,
          ({[ "amazon" := Some Sample.amazon ]} : AffiliateLinkConfig) !! p
            = Some (Some {| baseUrl := Some b; tag := Some t |}) ->
          exists parsed url,
            Url.parse_plain b = Some parsed
            /\ links !! p = Some (Url.toString url)
            /\ Url.base url = Url.p_base parsed
            /\ Url.fragment url = Url.p_fragment parsed
            /\ Url.query url = Some (Url.serialize (Url.params url))
            /\ Url.searchParams_get "ref" (Url.params url) = Some t
            /\ Url.searchParams_get "target" (Url.params url)
               = Some "https://example.com/p")
    /\ (forall p,
          ({[ "amazon" := Some Sample.amazon ]} : AffiliateLinkConfig) !! p = None
          \/ ({[ "amazon" := Some Sample.amazon ]} : AffiliateLinkConfig) !! p = Some None ->
          links !! p = None).
Proof.
  apply (affiliate_links_of_present_entries Url.parse_plain
           {[ "amazon" := Some Sample.amazon ]} "https://example.com/p").
  intros p e Hp. apply lookup_singleton_Some in Hp as [_ [= <-]].
  exists "https://amzn.to/x", "tag123".
  split; [reflexivity |]. split; [reflexivity |]. by eexists.
Defined.

(** The scenario of the specification: the link of [amazon]. *)
Example amazon_link :
  buildAffiliateLinks Url.parse_plain {[ "amazon" := Some Sample.amazon ]}
    "https://example.com/p"
  = Return {[ "amazon" :=
      "https://amzn.to/x?ref=tag123&target=https%3A%2F%2Fexample.com%2Fp" ]}.
Proof. vm_compute. reflexivity. Qed.

(** C6 fails as stated for an entry that lacks a field: without a tag the
    platform still gets a link, whose [ref] is the text [undefined];
    without a base URL the builder throws. Neither entry is left out
    silently. *)
Lemma entry_without_tag_is_linked :
  let no_tag := {| baseUrl := Some "https://amzn.to/x"; tag := None |} in
  let no_base := {| baseUrl := None; tag := Some "tag123" |} in
  buildAffiliateLinks Url.parse_plain {[ "amazon" := Some no_tag ]} "https://example.com/p"
    = Return {[ "amazon" :=
        "https://amzn.to/x?ref=undefined&target=https%3A%2F%2Fexample.com%2Fp" ]}
  /\ buildAffiliateLinks Url.parse_plain {[ "amazon" := Some no_base ]} "https://example.com/p"
    = Throw TypeError.
Proof. split; vm_compute; reflexivity. Qed.

(** ** The limiter (line 168) *)

Lemma remove_task_spec (task : nat) (l others : list nat) :
  Limiter.remove_task task l = Some others ->
  length l = S (length others) /\ others ⊆ l.
Proof.
  revert others. induction l as [|t rest IH]; intros others; simpl; [discriminate |].
  destruct (Nat.eqb t task).
  - intros [= ->]. split; [reflexivity |]. intros x Hx. by right.
  - destruct (Limiter.remove_task task rest) as [others'|]; [| discriminate].
    intros [= <-]. destruct (IH others' eq_refl) as [Hlen Hsub].
    simpl. split; [by rewrite Hlen |].
    intros x [->|Hx]%elem_of_cons; [left | right; by apply Hsub].
Qed.

Ltac limiter_fields :=
  unfold limiter_inv, Limiter.dequeue_run in *;
  cbn [Limiter.submitted Limiter.queue Limiter.checks Limiter.activeCount
       Limiter.in_flight Limiter.settled Limiter.started] in *.

Lemma dequeue_run_inv (concurrency total : nat) (s : Limiter.State) :
  Limiter.activeCount s = length (Limiter.in_flight s) + Limiter.settled s ->
  Limiter.activeCount s < concurrency ->
  Limiter.started s ++ Limiter.queue s = seq 0 (Limiter.submitted s) ->
  Limiter.submitted s <= total ->
  Limiter.in_flight s ⊆ Limiter.started s ->
  limiter_inv concurrency total (Limiter.dequeue_run s).
Proof.
  intros Hactive Hroom Hqueue Htotal Hsub.
  destruct s as [sub q ch act fl st started]; limiter_fields.
  destruct q as [|task rest]; limiter_fields.
  - repeat split; [done | lia | done | done | done].
  - rewrite length_app, <- (assoc_L (++)). simpl.
    repeat split; [lia | lia | done | done |].
    intros t [Ht|Ht]%elem_of_app; apply elem_of_app; [left; by apply Hsub | by right].
Qed.

Lemma fire_preserves (concurrency total : nat) (e : Limiter.Event) (s s' : Limiter.State) :
  limiter_inv concurrency total s ->
  Limiter.fire concurrency total e s = Some s' ->
  limiter_inv concurrency total s'.
Proof.
  intros (Hactive & Hcap & Hqueue & Htotal & Hsub) Hfire.
  destruct e as [| |task|]; unfold Limiter.fire in Hfire.
  - destruct (Nat.ltb_spec (Limiter.submitted s) total) as [Hlt|]; [| discriminate].
    injection Hfire as <-. limiter_fields.
    rewrite seq_S, (assoc_L (++)), Hqueue. simpl.
    repeat split; [done | done | lia | done].
  - destruct (Limiter.checks s) as [|n]; [discriminate |]. injection Hfire as <-.
    destruct (Nat.ltb_spec (Limiter.activeCount s) concurrency) as [Hlt|Hge].
    + by apply dequeue_run_inv.
    + by limiter_fields.
  - destruct (Limiter.remove_task task (Limiter.in_flight s)) as [others|] eqn:Hrem;
      [| discriminate].
    injection Hfire as <-. apply remove_task_spec in Hrem as [Hlen Hothers].
    limiter_fields. repeat split; [lia | done | done | done |].
    intros t Ht. by apply Hsub, Hothers.
  - destruct (Limiter.settled s) as [|n] eqn:Hsettled; [discriminate |].
    injection Hfire as <-.
    apply dequeue_run_inv; cbn [Limiter.submitted Limiter.queue Limiter.activeCount
      Limiter.in_flight Limiter.settled Limiter.started]; [lia | lia | done | done | done].
Qed.

Lemma run_preserves (concurrency total : nat) (events : list Limiter.Event)
    (s s' : Limiter.State) :
  limiter_inv concurrency total s ->
  Limiter.run concurrency total events s = Some s' ->
  limiter_inv concurrency total s'.
Proof.
  revert s. induction events as [|e rest IH]; intros s Hinv; simpl.
  - by intros [= <-].
  - destruct (Limiter.fire concurrency total e s) as [s1|] eqn:Hfire; [| discriminate].
    apply IH. by apply (fire_preserves _ _ e s).
Qed.

(** C9: whatever the number of prompts and however the submissions, the
    checks, the settlements and the [next] calls interleave, no more than
    two render calls are in flight; every call in flight was started from
    the queue, and the prompts submitted and not yet started wait in the
    queue in their order. *)
Theorem at_most_two_renders_in_flight (total : nat) (events : list Limiter.Event)
    (s : Limiter.State) :
  Limiter.run renderConcurrency total events Limiter.init = Some s ->
  length (Limiter.in_flight s) <= 2
  /\ Limiter.started s ++ Limiter.queue s = seq 0 (Limiter.submitted s)
  /\ Limiter.submitted s <= total
  /\ Limiter.in_flight s ⊆ Limiter.started s.
Proof.
  intros Hrun.
  assert (Hinit : limiter_inv renderConcurrency total Limiter.init).
  { unfold limiter_inv, Limiter.init; simpl. repeat split; [lia | lia | done]. }
  destruct (run_preserves _ _ _ _ _ Hinit Hrun) as (Hactive & Hcap & Hqueue & Htotal & Hsub).
  unfold renderConcurrency in Hcap. repeat split; [lia | done | done | done].
Qed.

(** Four prompts: two calls start, the others wait; when call 0 settles
    and its [next] runs, prompt 2 starts and prompt 3 still waits. *)
Lemma at_most_two_renders_in_flight_witness :
  exists s,
    Limiter.run renderConcurrency 4
      [Limiter.Submit; Limiter.Submit; Limiter.Submit; Limiter.Submit;
       Limiter.Check; Limiter.Check; Limiter.Check; Limiter.Check;
       Limiter.Settle 0; Limiter.Next] Limiter.init = Some s
    /\ Limiter.in_flight s = [1; 2] /\ Limiter.queue s = [3]
    /\ length (Limiter.in_flight s) <= 2
    /\ Limiter.started s ++ Limiter.queue s = seq 0 (Limiter.submitted s)
    /\ Limiter.submitted s <= 4
    /\ Limiter.in_flight s ⊆ Limiter.started s.
Proof.
  exists {| Limiter.submitted := 4; Limiter.queue := [3]; Limiter.checks := 0;
            Limiter.activeCount := 2; Limiter.in_flight := [1; 2];
            Limiter.settled := 0; Limiter.started := [0; 1; 2] |}.
  split; [reflexivity |]. split; [reflexivity |]. split; [reflexivity |].
  apply (at_most_two_renders_in_flight 4
           [Limiter.Submit; Limiter.Submit; Limiter.Submit; Limiter.Submit;
            Limiter.Check; Limiter.Check; Limiter.Check; Limiter.Check;
            Limiter.Settle 0; Limiter.Next]).
  reflexivity.
Defined.

(** ** Promise.all *)

Lemma Promise_all_Return {A : Type} (promises : list (Completion A)) (values : list A) :
  Promise_all promises = Return values <-> promises = map Return values.
Proof.
  revert values. induction promises as [|c rest IH]; intros values; simpl.
  - split; [intros [= <-]; reflexivity |]. by destruct values.
  - destruct c as [v|e]; cbn [bindC].
    + destruct (Promise_all rest) as [vs|e] eqn:Hrest; cbn [bindC].
      * split.
        -- intros [= <-]. simpl. f_equal. by apply IH.
        -- destruct values as [|v' vs']; simpl; [discriminate |].
           intros [= -> Hrest']. apply IH in Hrest' as [= ->]. reflexivity.
      * split; [discriminate |].
        destruct values as [|v' vs']; simpl; [discriminate |].
        intros [= -> Hrest']. by apply IH in Hrest'.
    + split; [discriminate |]. by destruct values.
Qed.

Lemma Promise_all_rejects {A : Type} (promises : list (Completion A)) (i : nat)
    (e : Exception) :
  promises !! i = Some (Throw e) -> exists e', Promise_all promises = Throw e'.
Proof.
  revert i. induction promises as [|c rest IH]; intros i Hi; [done |].
  destruct c as [v|e0]; simpl; [| by eexists].
  destruct i as [|i]; [done |].
  destruct (IH i Hi) as [e' ->]. by eexists.
Qed.

Lemma Promise_all_total {A : Type} (promises : list (Completion A)) :
  (forall i c, promises !! i = Some c -> exists v, c = Return v) ->
  exists values, Promise_all promises = Return values.
Proof.
  induction promises as [|c rest IH]; intros Hall; [by eexists |].
  destruct (Hall 0 c eq_refl) as [v ->].
  destruct IH as [vs Hvs]; [intros i c Hi; by apply (Hall (S i)) |].
  exists (v :: vs). simpl. by rewrite Hvs.
Qed.

(** ** The stages of POST *)

Section PostProperties.

Context {Product : Type} `{!Services Product}.

Lemma renderPrompt_Return (index : nat) (prompt : string) (image : option GeneratedImage) :
  renderPrompt index prompt = Return image <->
  exists res, generateNanoBananaImages index [prompt] = Return res /\ image = head res.
Proof.
  unfold renderPrompt. rewrite bindC_Return. split.
  - intros (res & Hres & [= <-]). eauto.
  - intros (res & Hres & ->). eauto.
Qed.

(** One rejected call rejects the whole batch. *)
Lemma renderAll_rejects (prompts : list string) (i : nat) (p : string) (e : Exception) :
  prompts !! i = Some p ->
  generateNanoBananaImages i [p] = Throw e ->
  exists e', renderAll prompts = Throw e'.
Proof.
  intros Hp Hcall. apply (Promise_all_rejects _ i e).
  rewrite list_lookup_imap, Hp. simpl. unfold renderPrompt. by rewrite Hcall.
Qed.

(** The batch resolves exactly when every call resolves, with the first
    element of each result at the position of its prompt. *)
Lemma renderAll_Return (prompts : list string) (images : list (option GeneratedImage)) :
  renderAll prompts = Return images <->
  length images = length prompts
  /\ forall i p, prompts !! i = Some p ->
       exists res, generateNanoBananaImages i [p] = Return res
                   /\ images !! i = Some (head res).
Proof.
  unfold renderAll. rewrite Promise_all_Return. split.
  - intros Heq. split.
    + by rewrite <- (length_imap renderPrompt prompts), Heq, length_map.
    + intros i p Hp.
      assert (Hi : imap renderPrompt prompts !! i = Some (renderPrompt i p)).
      { by rewrite list_lookup_imap, Hp. }
      rewrite Heq, list_lookup_fmap in Hi.
      destruct (images !! i) as [image|]; [| discriminate].
      injection Hi as Hi. symmetry in Hi.
      apply renderPrompt_Return in Hi as (res & Hres & ->). eauto.
  - intros [Hlen Hall]. apply list_eq. intros i.
    rewrite list_lookup_imap, list_lookup_fmap.
    destruct (prompts !! i) as [p|] eqn:Hp; simpl.
    + destruct (Hall i p Hp) as (res & Hres & ->). simpl. f_equal.
      apply renderPrompt_Return. eauto.
    + apply lookup_ge_None in Hp. rewrite (proj2 (lookup_ge_None images i)); [done | lia].
Qed.

Lemma imageStage_failure (prompts : list string) (i : nat) (p : string) (e : Exception)
    (include : bool) :
  prompts !! i = Some p ->
  generateNanoBananaImages i [p] = Throw e ->
  imageStage include prompts = [].
Proof.
  intros Hp Hcall. unfold imageStage.
  destruct (renderAll_rejects prompts i p e Hp Hcall) as [e' ->].
  by destruct (include && _).
Qed.

(** The stage yields something exactly when images are asked for, there
    is a prompt and every call resolves. *)
Lemma imageStage_yields (include : bool) (prompts : list string) :
  imageStage include prompts <> [] <->
  include = true /\ prompts <> []
  /\ forall i p, prompts !! i = Some p ->
       exists res, generateNanoBananaImages i [p] = Return res.
Proof.
  unfold imageStage. destruct include; simpl; [| by split; [| intros [? _]]].
  destruct prompts as [|p0 rest] eqn:Hprompts; simpl; [by split; [| intros (_ & ? & _)] |].
  rewrite <- Hprompts.
  destruct (renderAll prompts) as [images|e] eqn:Hrender.
  - apply renderAll_Return in Hrender as [Hlen Hall]. split.
    + intros _. split; [done |]. split; [by rewrite Hprompts |].
      intros i p Hp. destruct (Hall i p Hp) as (res & Hres & _). eauto.
    + intros _ ->. by rewrite Hprompts in Hlen.
  - split; [done |]. intros (_ & _ & Hall). exfalso.
    destruct (Promise_all_total (imap renderPrompt prompts)) as [values Hvalues].
    + intros i c. rewrite list_lookup_imap.
      destruct (prompts !! i) as [p|] eqn:Hp; simpl; [| discriminate].
      intros [= <-]. destruct (Hall i p Hp) as [res Hres].
      exists (head res). apply renderPrompt_Return. eauto.
    + unfold renderAll in Hrender. congruence.
Qed.

Lemma pipeline_run (input : GenerationRequest) (productData : Product)
    (draft : GeneratedArticle) (ck : Checks) :
  Spellchecks input draft ck ->
  pipeline input productData draft = Return (payload_of input productData draft ck).
Proof.
  intros (Hs & Hf & Ht & Hm & He & Hc). unfold pipeline.
  rewrite Hs; cbn [bindC]. rewrite Hf; cbn [bindC]. rewrite Ht; cbn [bindC].
  rewrite Hm; cbn [bindC]. rewrite He; cbn [bindC]. rewrite Hc; cbn [bindC].
  reflexivity.
Qed.

Lemma pipeline_inv (input : GenerationRequest) (productData : Product)
    (draft : GeneratedArticle) (payload : GenerationResponse Product) :
  pipeline input productData draft = Return payload ->
  exists ck, Spellchecks input draft ck /\ payload = payload_of input productData draft ck.
Proof.
  unfold pipeline. intros H.
  apply bindC_Return in H as (sc & Hs & H). apply bindC_Return in H as (fc & Hf & H).
  apply bindC_Return in H as (tc & Ht & H). apply bindC_Return in H as (mc & Hm & H).
  apply bindC_Return in H as (ec & He & H). apply bindC_Return in H as (cc & Hc & H).
  injection H as <-.
  exists {| sectionCheck := sc; faqCheck := fc; titleCheck := tc; metaCheck := mc;
            excerptCheck := ec; ctaCheck := cc |}.
  split; [| reflexivity]. repeat split; assumption.
Qed.

(** A run whose fatal stages return answers with status 200. *)
Lemma POST_run (input : GenerationRequest) (productData : Product)
    (draft : GeneratedArticle) (ck : Checks) :
  Drafted input productData draft ->
  Spellchecks input draft ck ->
  POST input = Some (Json200 (payload_of input productData draft ck)).
Proof.
  intros (Hscrape & parsed & Hdraft & Htyped) Hchecks. unfold POST, handle.
  rewrite Hscrape; cbn [bindC]. rewrite Hdraft; cbn [bindC]. rewrite Htyped.
  by rewrite (pipeline_run _ _ _ _ Hchecks).
Qed.

(** Every answer with status 200 comes from such a run. *)
Lemma POST_200_inv (input : GenerationRequest) (payload : GenerationResponse Product) :
  POST input = Some (Json200 payload) ->
  exists productData draft ck,
    Drafted input productData draft
    /\ Spellchecks input draft ck
    /\ payload = payload_of input productData draft ck.
Proof.
  unfold POST. destruct (handle input) as [[r|]|e] eqn:Hhandle; try discriminate.
  intros [= ->]. unfold handle in Hhandle.
  apply bindC_Return in Hhandle as (productData & Hscrape & Hhandle).
  apply bindC_Return in Hhandle as (parsed & Hdraft & Hhandle).
  destruct (Typed.as_GeneratedArticle parsed) as [draft|] eqn:Htyped; [| discriminate].
  apply bindC_Return in Hhandle as (payload' & Hpipe & [= ->]).
  apply pipeline_inv in Hpipe as (ck & Hchecks & ->).
  exists productData, draft, ck. split; [| done].
  split; [done |]. by exists parsed.
Qed.

End PostProperties.

(** ** The response *)

Section Response.

Context {Product : Type} `{!Services Product}.

Lemma nanoBananaImages_payload_of (input : GenerationRequest) (productData : Product)
    (draft : GeneratedArticle) (ck : Checks) :
  nanoBananaImages (payload_of input productData draft ck)
  = match imageStage (includeImages input) (imagePrompts draft) with
    | [] => None
    | image :: images => Some (image :: images)
    end.
Proof.
  unfold payload_of, responsePayload. cbn [nanoBananaImages].
  by destruct (imageStage _ _).
Qed.

(** The FAQs of a 200 answer: each FAQ of the draft, split from the
    corrected text at its index (the empty text when there is none). *)
Lemma response_faqs (input : GenerationRequest) (payload : GenerationResponse Product) :
  POST input = Some (Json200 payload) ->
  exists productData draft ck,
    Drafted input productData draft
    /\ Spellchecks input draft ck
    /\ forall i faq, faqs draft !! i = Some faq ->
         faqs (article payload) !! i
         = Some (splitFaq faq (default EmptyString (corrected (faqCheck ck) !! i))).
Proof.
  intros (productData & draft & ck & Hdraft & Hchecks & ->)%POST_200_inv.
  exists productData, draft, ck. split; [done |]. split; [done |].
  intros i faq Hfaq. unfold payload_of, responsePayload, correctedArticle.
  cbn [article faqs]. by rewrite list_lookup_imap, Hfaq.
Qed.

(** C3: when a render call fails, the image stage yields no image, the
    request answers with status 200 all the same (its fatal stages having
    returned), and the payload has no image list. *)
Theorem render_failure_yields_no_images (input : GenerationRequest)
    (productData : Product) (draft : GeneratedArticle) (ck : Checks)
    (i : nat) (p : string) (e : Exception) :
  Drafted input productData draft ->
  Spellchecks input draft ck ->
  includeImages input = true ->
  imagePrompts draft !! i = Some p ->
  generateNanoBananaImages i [p] = Throw e ->
  imageStage (includeImages input) (imagePrompts draft) = []
  /\ exists payload,
       POST input = Some (Json200 payload) /\ nanoBananaImages payload = None.
Proof.
  intros Hdraft Hchecks _ Hp Hcall.
  pose proof (imageStage_failure _ i p e (includeImages input) Hp Hcall) as Hstage.
  split; [exact Hstage |].
  exists (payload_of input productData draft ck).
  split; [by apply POST_run |].
  by rewrite nanoBananaImages_payload_of, Hstage.
Qed.

(** C1, as the code has it: when exactly one of two or more render calls
    fails and the others succeed, the request answers with status 200 and
    its payload has no image list, although every other call has rendered
    its image: none of them is returned. *)
Theorem single_failure_discards_all_images (input : GenerationRequest)
    (productData : Product) (draft : GeneratedArticle) (ck : Checks)
    (i : nat) (e : Exception) :
  Drafted input productData draft ->
  Spellchecks input draft ck ->
  includeImages input = true ->
  2 <= length (imagePrompts draft) ->
  (exists p, imagePrompts draft !! i = Some p
             /\ generateNanoBananaImages i [p] = Throw e) ->
  (forall j p, j <> i -> imagePrompts draft !! j = Some p ->
     exists image, generateNanoBananaImages j [p] = Return [image]) ->
  (exists j p image,
     j <> i /\ imagePrompts draft !! j = Some p
     /\ renderPrompt j p = Return (Some image))
  /\ exists payload,
       POST input = Some (Json200 payload) /\ nanoBananaImages payload = None.
Proof.
  intros Hdraft Hchecks _ Hlen (p & Hp & Hcall) Hothers. split.
  - (* a second prompt exists, and its call has rendered *)
    assert (Hj : exists j q, j <> i /\ imagePrompts draft !! j = Some q).
    { destruct (imagePrompts draft) as [|q0 [|q1 rest]]; simpl in Hlen; [lia | lia |].
      destruct i as [|i]; [exists 1, q1 | exists 0, q0]; by split. }
    destruct Hj as (j & q & Hne & Hq).
    destruct (Hothers j q Hne Hq) as [image Himage].
    exists j, q, image. split; [done |]. split; [done |].
    apply renderPrompt_Return. by exists [image].
  - exists (payload_of input productData draft ck).
    split; [by apply POST_run |].
    by rewrite nanoBananaImages_payload_of,
      (imageStage_failure _ i p e (includeImages input) Hp Hcall).
Qed.

(** C4, as the code has it: the payload of a 200 answer has an image list
    exactly when images are asked for, the draft has a prompt and every
    render call resolves; the list then has one element for each prompt;
    without [includeImages] there is no list. *)
Theorem image_list_present_iff_all_rendered (input : GenerationRequest)
    (payload : GenerationResponse Product) :
  POST input = Some (Json200 payload) ->
  exists productData draft,
    Drafted input productData draft
    /\ (is_Some (nanoBananaImages payload) <->
          includeImages input = true
          /\ imagePrompts draft <> []
          /\ forall i p, imagePrompts draft !! i = Some p ->
               exists res, generateNanoBananaImages i [p] = Return res)
    /\ (forall images, nanoBananaImages payload = Some images ->
          images <> [] /\ length images = length (imagePrompts draft))
    /\ (includeImages input = false -> nanoBananaImages payload = None).
Proof.
  intros (productData & draft & ck & Hdraft & Hchecks & ->)%POST_200_inv.
  exists productData, draft. split; [exact Hdraft |].
  rewrite nanoBananaImages_payload_of.
  pose proof (imageStage_yields (includeImages input) (imagePrompts draft)) as Hyields.
  split; [| split].
  - rewrite <- Hyields. destruct (imageStage _ _); split.
    + by intros [? ?].
    + by intros [].
    + done.
    + by eexists.
  - intros images Himages.
    assert (Hstage : imageStage (includeImages input) (imagePrompts draft) = images).
    { destruct (imageStage _ _); [discriminate | by injection Himages]. }
    assert (Hne : images <> []) by (intros ->; by rewrite Hstage in Himages).
    split; [exact Hne |]. rewrite <- Hstage in Hne |- *.
    unfold imageStage in *.
    destruct (includeImages input && _); [| done].
    destruct (renderAll (imagePrompts draft)) as [rendered|] eqn:Hrender; [| done].
    by apply renderAll_Return in Hrender as [Hlen _].
  - intros Hoff. unfold imageStage. by rewrite Hoff.
Qed.

(** C7: the highlights of a 200 answer are the entry of the region, the
    entry of the keywords joined by a comma and a space, and then the
    notes, if notes were sent and are not empty, and nothing otherwise. *)
Theorem geoHighlights_composition (input : GenerationRequest)
    (payload : GenerationResponse Product) :
  POST input = Some (Json200 payload) ->
  exists rest,
    geoHighlights payload
      = ("Optimized for " +:+ targetRegion input +:+ " audience")
        :: ("Keywords: " +:+ Str.join ", " (seoKeywords input))
        :: rest
    /\ (forall text, additionalNotes input = Some text -> text <> EmptyString ->
          rest = [text])
    /\ (additionalNotes input = None \/ additionalNotes input = Some EmptyString ->
          rest = []).
Proof.
  intros (productData & draft & ck & _ & _ & ->)%POST_200_inv.
  unfold payload_of, responsePayload, composeGeoHighlights. cbn [geoHighlights].
  eexists. split; [reflexivity |]. split.
  - intros text -> Htext. by destruct text.
  - by intros [-> | ->].
Qed.

(** C8: the adjustments of a 200 answer are those of the section bodies,
    then those of the FAQ pairs, then those of the title, of the meta
    description, of the excerpt and of the call to action. *)
Theorem spellingAdjustments_in_stage_order (input : GenerationRequest)
    (payload : GenerationResponse Product) :
  POST input = Some (Json200 payload) ->
  exists productData draft sections_ faqs_ title_ meta_ excerpt_ cta_,
    Drafted input productData draft
    /\ spellcheckSections (map body (sections draft)) (targetLanguage input)
       = Return sections_
    /\ (if Nat.eqb (length (faqs draft)) 0
        then faqs_ = {| corrected := []; adjustments := [] |}
        else spellcheckSections
               (map (fun faq => heading faq +:+ Str.LF +:+ body faq) (faqs draft))
               (targetLanguage input) = Return faqs_)
    /\ runSpellcheck (title draft) (targetLanguage input) = Return title_
    /\ runSpellcheck (metaDescription draft) (targetLanguage input) = Return meta_
    /\ runSpellcheck (excerpt draft) (targetLanguage input) = Return excerpt_
    /\ runSpellcheck (callToAction draft) (targetLanguage input) = Return cta_
    /\ spellingAdjustments payload
       = adjustments sections_ ++ adjustments faqs_ ++ adjustments title_
         ++ adjustments meta_ ++ adjustments excerpt_ ++ adjustments cta_.
Proof.
  intros (productData & draft & ck & Hdraft & Hchecks & ->)%POST_200_inv.
  destruct Hchecks as (Hs & Hf & Ht & Hm & He & Hc).
  exists productData, draft, (sectionCheck ck), (faqCheck ck), (titleCheck ck),
    (metaCheck ck), (excerptCheck ck), (ctaCheck ck).
  repeat (split; [assumption |]). split; [| by repeat (split; [assumption |])].
  unfold spellcheckFaqs in Hf.
  destruct (Nat.eqb (length (faqs draft)) 0); [by injection Hf | exact Hf].
Qed.

(** C10, as the code has it: when the chat call returns without a message
    content, the draft is the all-empty article of the literal, and the
    request answers with status 200 once the (empty) batch check and the
    check of the empty text return. *)
Theorem missing_content_defaults_to_empty_article (input : GenerationRequest)
    (productData : Product)
    (client : ChatRequest Product -> Completion (option string))
    (links : gmap string string)
    (batch : Spellchecked (list string)) (single : Spellchecked string) :
  scrapeProductSnapshot (productUrl input) = Return productData ->
  getOpenAIClient = Return client ->
  buildAffiliateLinks basic_url_parser (affiliateConfig input) (productUrl input)
    = Return links ->
  client {| model := default "gpt-4o-mini" OPENAI_MODEL;
            instructions := input;
            notes := default EmptyString (additionalNotes input);
            affiliateLinks := links;
            product_data := productData |} = Return None ->
  spellcheckSections [] (targetLanguage input) = Return batch ->
  runSpellcheck EmptyString (targetLanguage input) = Return single ->
  Drafted input productData empty_article
  /\ exists payload,
       POST input = Some (Json200 payload)
       /\ sections (article payload) = [] /\ faqs (article payload) = []
       /\ affiliateBlocks (article payload) = [] /\ imagePrompts (article payload) = []
       /\ slug (article payload) = EmptyString
       /\ title (article payload) = Str.trim (corrected single)
       /\ nanoBananaImages payload = None.
Proof.
  intros Hscrape Hclient Hlinks Hchat Hbatch Hsingle.
  assert (Hdraft : Drafted input productData empty_article).
  { split; [exact Hscrape |].
    eexists. split.
    - unfold assembleArticle. rewrite Hclient; cbn [bindC].
      rewrite Hlinks; cbn [bindC]. rewrite Hchat; cbn [bindC].
      vm_compute. reflexivity.
    - vm_compute. reflexivity. }
  split; [exact Hdraft |].
  set (ck := {| sectionCheck := batch;
                faqCheck := {| corrected := []; adjustments := [] |};
                titleCheck := single; metaCheck := single;
                excerptCheck := single; ctaCheck := single |}).
  exists (payload_of input productData empty_article ck).
  split; [apply POST_run; [exact Hdraft |] |].
  - unfold Spellchecks, ck, empty_article; cbn. repeat split; assumption.
  - rewrite nanoBananaImages_payload_of. unfold imageStage. cbn.
    rewrite andb_false_r. repeat split; reflexivity.
Qed.

End Response.

(** ** Concrete runs of the handler *)

(** Evaluation of a run with the sample services. *)
Ltac sample_drafted :=
  split; [reflexivity | eexists; split; vm_compute; reflexivity].

Ltac sample_checks := repeat split; vm_compute; reflexivity.

Lemma render_failure_yields_no_images_witness :
  @generateNanoBananaImages string
     (Sample.services (Some (Sample.content ["stove"; "detail"]))
        (Sample.keep_batch "block: ") (Sample.render_but 1))
     1 ["detail"] = Throw (ErrorMessage "Nano Banana request failed")
  /\ @imageStage string
       (Sample.services (Some (Sample.content ["stove"; "detail"]))
          (Sample.keep_batch "block: ") (Sample.render_but 1))
       true ["stove"; "detail"] = []
  /\ exists payload,
       @POST string
         (Sample.services (Some (Sample.content ["stove"; "detail"]))
            (Sample.keep_batch "block: ") (Sample.render_but 1))
         (Sample.request true None) = Some (Json200 payload)
       /\ nanoBananaImages payload = None.
Proof.
  split; [reflexivity |].
  apply (@render_failure_yields_no_images string
           (Sample.services (Some (Sample.content ["stove"; "detail"]))
              (Sample.keep_batch "block: ") (Sample.render_but 1))
           (Sample.request true None) Sample.snapshot
           (Sample.draft ["stove"; "detail"]) (Sample.checks "block: ")
           1 "detail" (ErrorMessage "Nano Banana request failed")).
  - sample_drafted.
  - sample_checks.
  - reflexivity.
  - reflexivity.
  - reflexivity.
Defined.

Lemma single_failure_discards_all_images_witness :
  (exists j p image,
     j <> 0 /\ ["stove"; "detail"] !! j = Some p
     /\ @renderPrompt string
          (Sample.services (Some (Sample.content ["stove"; "detail"]))
             (Sample.keep_batch "block: ") (Sample.render_but 0))
          j p = Return (Some image))
  /\ exists payload,
       @POST string
         (Sample.services (Some (Sample.content ["stove"; "detail"]))
            (Sample.keep_batch "block: ") (Sample.render_but 0))
         (Sample.request true None) = Some (Json200 payload)
       /\ nanoBananaImages payload = None.
Proof.
  apply (@single_failure_discards_all_images string
           (Sample.services (Some (Sample.content ["stove"; "detail"]))
              (Sample.keep_batch "block: ") (Sample.render_but 0))
           (Sample.request true None) Sample.snapshot
           (Sample.draft ["stove"; "detail"]) (Sample.checks "block: ")
           0 (ErrorMessage "Nano Banana request failed")).
  - sample_drafted.
  - sample_checks.
  - reflexivity.
  - simpl. lia.
  - exists "stove". split; reflexivity.
  - intros [|[|j]] p Hj Hp; [done | | done].
    injection Hp as <-. by exists (Sample.image "detail").
Defined.

(** C1 fails as stated: of two render calls the first resolves with an
    image and the second rejects; the request answers with status 200 and
    its payload has no image list, so the image of the first call is not
    in it. *)
Lemma one_failure_drops_the_other_image :
  let services :=
    Sample.services (Some (Sample.content ["stove"; "detail"]))
      (Sample.keep_batch "block: ") (Sample.render_but 1) in
  @generateNanoBananaImages string services 0 ["stove"] = Return [Sample.image "stove"]
  /\ @generateNanoBananaImages string services 1 ["detail"]
     = Throw (ErrorMessage "Nano Banana request failed")
  /\ exists payload,
       @POST string services (Sample.request true None) = Some (Json200 payload)
       /\ ~ (exists images, nanoBananaImages payload = Some images
                            /\ Some (Sample.image "stove") ∈ images).
Proof.
  cbv zeta. split; [reflexivity |]. split; [reflexivity |].
  eexists. split; [vm_compute; reflexivity |].
  intros (images & Himages & _). discriminate.
Qed.

Lemma image_list_present_iff_all_rendered_witness :
  exists payload,
    @POST string
      (Sample.services (Some (Sample.content ["stove"; "detail"]))
         (Sample.keep_batch "block: ") Sample.render_ok)
      (Sample.request true None) = Some (Json200 payload)
    /\ nanoBananaImages payload
       = Some [Some (Sample.image "stove"); Some (Sample.image "detail")]
    /\ exists productData draft,
         @Drafted string
           (Sample.services (Some (Sample.content ["stove"; "detail"]))
              (Sample.keep_batch "block: ") Sample.render_ok)
           (Sample.request true None) productData draft
         /\ (is_Some (nanoBananaImages payload) <->
               includeImages (Sample.request true None) = true
               /\ imagePrompts draft <> []
               /\ forall i p, imagePrompts draft !! i = Some p ->
                    exists res, Sample.render_ok i [p] = Return res)
         /\ (forall images, nanoBananaImages payload = Some images ->
               images <> [] /\ length images = length (imagePrompts draft))
         /\ (includeImages (Sample.request true None) = false ->
               nanoBananaImages payload = None).
Proof.
  eexists. split; [vm_compute; reflexivity |]. split; [reflexivity |].
  apply (@image_list_present_iff_all_rendered string
           (Sample.services (Some (Sample.content ["stove"; "detail"]))
              (Sample.keep_batch "block: ") Sample.render_ok)
           (Sample.request true None)).
  vm_compute. reflexivity.
Defined.

(** C4 fails as stated: of three render calls the first two resolve, each
    with an image, and the third rejects (behind a cap of two it starts
    only after one of the others has settled); the request answers with
    status 200, yet its payload has no image list although images were
    rendered. *)
Lemma rendered_images_without_image_list :
  let services :=
    Sample.services (Some (Sample.content ["stove"; "detail"; "box"]))
      (Sample.keep_batch "block: ") (Sample.render_but 2) in
  @generateNanoBananaImages string services 0 ["stove"] = Return [Sample.image "stove"]
  /\ @generateNanoBananaImages string services 1 ["detail"] = Return [Sample.image "detail"]
  /\ exists payload,
       @POST string services (Sample.request true None) = Some (Json200 payload)
       /\ ~ is_Some (nanoBananaImages payload).
Proof.
  cbv zeta. split; [reflexivity |]. split; [reflexivity |].
  eexists. split; [vm_compute; reflexivity |]. by intros [? ?].
Qed.

(** The scenario of the specification, with notes. *)
Lemma geoHighlights_composition_witness :
  exists payload,
    @POST string
      (Sample.services (Some (Sample.content []))
         (Sample.keep_batch "block: ") Sample.render_ok)
      (Sample.request false (Some "Destaque o frete")) = Some (Json200 payload)
    /\ geoHighlights payload
       = ["Optimized for Brazil audience"; "Keywords: melhor preço, review completo";
          "Destaque o frete"]
    /\ exists rest,
         geoHighlights payload
           = ("Optimized for " +:+ "Brazil" +:+ " audience")
             :: ("Keywords: " +:+ Str.join ", " ["melhor preço"; "review completo"])
             :: rest
         /\ (forall text, Some "Destaque o frete" = Some text -> text <> EmptyString ->
               rest = [text])
         /\ (Some "Destaque o frete" = None
             \/ Some "Destaque o frete" = Some EmptyString -> rest = []).
Proof.
  eexists. split; [vm_compute; reflexivity |]. split; [reflexivity |].
  apply (@geoHighlights_composition string
           (Sample.services (Some (Sample.content []))
              (Sample.keep_batch "block: ") Sample.render_ok)
           (Sample.request false (Some "Destaque o frete"))).
  vm_compute. reflexivity.
Defined.

Lemma spellingAdjustments_in_stage_order_witness :
  exists payload,
    @POST string
      (Sample.services (Some (Sample.content []))
         (Sample.keep_batch "block: ") Sample.render_ok)
      (Sample.request false None) = Some (Json200 payload)
    /\ spellingAdjustments payload
       = ["block: Boils fast"; "block: Is it loud?" +:+ Str.LF +:+ "No";
          "text: Kettle review"; "text: "; "text: "; "text: "]
    /\ exists productData draft sections_ faqs_ title_ meta_ excerpt_ cta_,
         @Drafted string
           (Sample.services (Some (Sample.content []))
              (Sample.keep_batch "block: ") Sample.render_ok)
           (Sample.request false None) productData draft
         /\ Sample.keep_batch "block: " (map body (sections draft)) "pt-BR" = Return sections_
         /\ (if Nat.eqb (length (faqs draft)) 0
             then faqs_ = {| corrected := []; adjustments := [] |}
             else Sample.keep_batch "block: "
                    (map (fun faq => heading faq +:+ Str.LF +:+ body faq) (faqs draft))
                    "pt-BR" = Return faqs_)
         /\ Sample.keep_text (title draft) "pt-BR" = Return title_
         /\ Sample.keep_text (metaDescription draft) "pt-BR" = Return meta_
         /\ Sample.keep_text (excerpt draft) "pt-BR" = Return excerpt_
         /\ Sample.keep_text (callToAction draft) "pt-BR" = Return cta_
         /\ spellingAdjustments payload
            = adjustments sections_ ++ adjustments faqs_ ++ adjustments title_
              ++ adjustments meta_ ++ adjustments excerpt_ ++ adjustments cta_.
Proof.
  eexists. split; [vm_compute; reflexivity |]. split; [reflexivity |].
  apply (@spellingAdjustments_in_stage_order string
           (Sample.services (Some (Sample.content []))
              (Sample.keep_batch "block: ") Sample.render_ok)
           (Sample.request false None)).
  vm_compute. reflexivity.
Defined.

Lemma missing_content_defaults_to_empty_article_witness :
  @Drafted string
    (Sample.services None (Sample.keep_batch "block: ") Sample.render_ok)
    (Sample.request true None) Sample.snapshot empty_article
  /\ exists payload,
       @POST string
         (Sample.services None (Sample.keep_batch "block: ") Sample.render_ok)
         (Sample.request true None) = Some (Json200 payload)
       /\ sections (article payload) = [] /\ faqs (article payload) = []
       /\ affiliateBlocks (article payload) = [] /\ imagePrompts (article payload) = []
       /\ slug (article payload) = EmptyString
       /\ title (article payload) = Str.trim EmptyString
       /\ nanoBananaImages payload = None.
Proof.
  apply (@missing_content_defaults_to_empty_article string
           (Sample.services None (Sample.keep_batch "block: ") Sample.render_ok)
           (Sample.request true None) Sample.snapshot (fun _ => Return None)
           {[ "amazon" :=
                "https://amzn.to/x?ref=tag123&target=https%3A%2F%2Fexample.com%2Fp" ]}
           {| corrected := []; adjustments := [] |}
           {| corrected := EmptyString; adjustments := ["text: "] |}).
  - reflexivity.
  - reflexivity.
  - vm_compute. reflexivity.
  - reflexivity.
  - reflexivity.
  - reflexivity.
Defined.

(** C10 fails as stated for a content that is present and empty (or
    blank): the literal is not substituted, the empty text does not parse
    and the request answers with status 400. *)
Lemma empty_content_fails_the_request :
  @POST string
    (Sample.services (Some EmptyString) (Sample.keep_batch "block: ") Sample.render_ok)
    (Sample.request true None)
  = Some (Json400 (ErrorMessage "Failed to parse article response from model"))
  /\ @POST string
       (Sample.services (Some "  ") (Sample.keep_batch "block: ") Sample.render_ok)
       (Sample.request true None)
     = Some (Json400 (ErrorMessage "Failed to parse article response from model")).
Proof. split; vm_compute; reflexivity. Qed.

(** * Further properties of the handler *)

(** ** The image stage is not fatal *)

Section ImageService.

Context {Product : Type} (services : Services Product).
Variable render : nat -> list string -> Completion (list GeneratedImage).

Lemma assembleArticle_with_images (url : string) (input : GenerationRequest)
    (productData : Product) :
  @assembleArticle Product (with_images services render) url input productData
  = @assembleArticle Product services url input productData.
Proof. reflexivity. Qed.

(** Whatever the image generator does, the request has the same status:
    the same error with status 400, or status 200 with the same product,
    article, adjustments and highlights. Only the image list can differ. *)
Theorem image_service_never_fails_request (input : GenerationRequest) :
  match @POST Product services input,
        @POST Product (with_images services render) input with
  | Some (Json200 p), Some (Json200 p') =>
      product p = product p' /\ article p = article p'
      /\ spellingAdjustments p = spellingAdjustments p'
      /\ geoHighlights p = geoHighlights p'
  | Some (Json400 e), Some (Json400 e') => e = e'
  | None, None => True
  | _, _ => False
  end.
Proof.
  unfold POST, handle.
  change (@scrapeProductSnapshot Product (with_images services render))
    with (@scrapeProductSnapshot Product services).
  destruct (scrapeProductSnapshot (productUrl input)) as [productData|e]; cbn [bindC];
    [| reflexivity].
  rewrite assembleArticle_with_images.
  destruct (assembleArticle (productUrl input) input productData) as [parsed|e];
    cbn [bindC]; [| reflexivity].
  destruct (Typed.as_GeneratedArticle parsed) as [draft|]; [| exact I].
  unfold pipeline, spellcheckFaqs.
  change (@spellcheckSections Product (with_images services render))
    with (@spellcheckSections Product services).
  change (@runSpellcheck Product (with_images services render))
    with (@runSpellcheck Product services).
  destruct (spellcheckSections (map body (sections draft)) (targetLanguage input));
    cbn [bindC]; [| reflexivity].
  destruct (if Nat.eqb (length (faqs draft)) 0 then _ else _); cbn [bindC]; [| reflexivity].
  destruct (runSpellcheck (title draft) (targetLanguage input)); cbn [bindC];
    [| reflexivity].
  destruct (runSpellcheck (metaDescription draft) (targetLanguage input)); cbn [bindC];
    [| reflexivity].
  destruct (runSpellcheck (excerpt draft) (targetLanguage input)); cbn [bindC];
    [| reflexivity].
  destruct (runSpellcheck (callToAction draft) (targetLanguage input)); cbn [bindC];
    [| reflexivity].
  repeat split; reflexivity.
Qed.

(** Without [includeImages] the image generator is never consulted: the
    answer is the same with any generator. *)
Theorem no_render_without_includeImages (input : GenerationRequest) :
  includeImages input = false ->
  @POST Product (with_images services render) input = @POST Product services input.
Proof.
  intros Hoff. unfold POST, handle.
  change (@scrapeProductSnapshot Product (with_images services render))
    with (@scrapeProductSnapshot Product services).
  destruct (scrapeProductSnapshot (productUrl input)) as [productData|e]; cbn [bindC];
    [| reflexivity].
  rewrite assembleArticle_with_images.
  destruct (assembleArticle (productUrl input) input productData) as [parsed|e];
    cbn [bindC]; [| reflexivity].
  destruct (Typed.as_GeneratedArticle parsed) as [draft|]; [| reflexivity].
  unfold pipeline, spellcheckFaqs, imageStage. rewrite Hoff. reflexivity.
Qed.

End ImageService.

(** ** Fatal stages *)



Section Fatal.

Context {Product : Type} `{!Services Product}.

(** The draft of a run whose client answered with [content]. *)
Lemma assembleArticle_content (input : GenerationRequest) (productData : Product)
    (client : ChatRequest Product -> Completion (option string))
    (links : gmap string string) (content : string) :
  getOpenAIClient = Return client ->
  buildAffiliateLinks basic_url_parser (affiliateConfig input) (productUrl input)
    = Return links ->
  client {| model := default "gpt-4o-mini" OPENAI_MODEL;
            instructions := input;
            notes := default EmptyString (additionalNotes input);
            affiliateLinks := links;
            product_data := productData |} = Return (Some content) ->
  assembleArticle (productUrl input) input productData
  = let* parsed := Draft.parse_content (Str.trim content) in Draft.normalize parsed.
Proof.
  intros Hclient Hlinks Hchat. unfold assembleArticle.
  rewrite Hclient; cbn [bindC]. rewrite Hlinks; cbn [bindC]. by rewrite Hchat.
Qed.

(** A content that is not JSON fails the request with the message of
    line 101, whatever the other services would have done. *)
Theorem unparseable_content_is_fatal (input : GenerationRequest) (productData : Product)
    (client : ChatRequest Product -> Completion (option string))
    (links : gmap string string) (content : string) :
  scrapeProductSnapshot (productUrl input) = Return productData ->
  getOpenAIClient = Return client ->
  buildAffiliateLinks basic_url_parser (affiliateConfig input) (productUrl input)
    = Return links ->
  client {| model := default "gpt-4o-mini" OPENAI_MODEL;
            instructions := input;
            notes := default EmptyString (additionalNotes input);
            affiliateLinks := links;
            product_data := productData |} = Return (Some content) ->
  JSON.parse (Str.trim content) = None ->
  POST input
  = Some (Json400 (ErrorMessage "Failed to parse article response from model")).
Proof.
  intros Hscrape Hclient Hlinks Hchat Hparse. unfold POST, handle.
  rewrite Hscrape; cbn [bindC].
  rewrite (assembleArticle_content _ _ _ _ _ Hclient Hlinks Hchat).
  unfold Draft.parse_content. by rewrite Hparse.
Qed.

(** A content that is JSON but no object ([null], a number, a string, a
    boolean) is not defaulted: the first assignment of the normalisation
    throws and the request answers with status 400. *)
Theorem non_object_content_is_fatal (input : GenerationRequest) (productData : Product)
    (client : ChatRequest Product -> Completion (option string))
    (links : gmap string string) (content : string) (parsed : JSValue) :
  scrapeProductSnapshot (productUrl input) = Return productData ->
  getOpenAIClient = Return client ->
  buildAffiliateLinks basic_url_parser (affiliateConfig input) (productUrl input)
    = Return links ->
  client {| model := default "gpt-4o-mini" OPENAI_MODEL;
            instructions := input;
            notes := default EmptyString (additionalNotes input);
            affiliateLinks := links;
            product_data := productData |} = Return (Some content) ->
  JSON.parse (Str.trim content) = Some parsed ->
  Typed.own_props parsed = None ->
  Draft.normalize parsed = Throw TypeError
  /\ POST input = Some (Json400 TypeError).
Proof.
  intros Hscrape Hclient Hlinks Hchat Hparse Hprim.
  assert (Hnorm : Draft.normalize parsed = Throw TypeError).
  { by destruct parsed. }
  split; [exact Hnorm |]. unfold POST, handle.
  rewrite Hscrape; cbn [bindC].
  rewrite (assembleArticle_content _ _ _ _ _ Hclient Hlinks Hchat).
  unfold Draft.parse_content. rewrite Hparse; cbn [bindC]. by rewrite Hnorm.
Qed.





End Fatal.

(** ** What the spell check stage keeps *)

Section Kept.

Context {Product : Type} `{!Services Product}.

(** The article of a 200 answer has the sections of the draft, as many
    and in the same order and with their headings; a body is the
    corrected text at its position, or the draft's body when the checker
    returned fewer texts. The FAQs are as many as in the draft; slug,
    affiliate blocks and image prompts are those of the draft. *)
Theorem checked_article_keeps_structure (input : GenerationRequest)
    (payload : GenerationResponse Product) :
  POST input = Some (Json200 payload) ->
  exists productData draft ck,
    Drafted input productData draft
    /\ Spellchecks input draft ck
    /\ length (sections (article payload)) = length (sections draft)
    /\ (forall i section, sections draft !! i = Some section ->
          sections (article payload) !! i
          = Some {| heading := heading section;
                    body := match corrected (sectionCheck ck) !! i with
                            | Some text => text
                            | None => body section
                            end |})
    /\ length (faqs (article payload)) = length (faqs draft)
    /\ slug (article payload) = slug draft
    /\ affiliateBlocks (article payload) = affiliateBlocks draft
    /\ imagePrompts (article payload) = imagePrompts draft.
Proof.
  intros (productData & draft & ck & Hdraft & Hchecks & ->)%POST_200_inv.
  exists productData, draft, ck. split; [done |]. split; [done |].
  unfold payload_of, responsePayload, correctedArticle.
  cbn [article sections faqs slug affiliateBlocks imagePrompts].
  rewrite !length_imap. repeat split.
  intros i section Hsection. rewrite list_lookup_imap, Hsection. simpl.
  by destruct (corrected (sectionCheck ck) !! i).
Qed.

(** The image list of a 200 answer follows the prompts: its element at a
    position is the first image of the call for the prompt at that
    position, and it is [undefined] (a JSON [null]) when that call
    resolved with no image. *)
Theorem image_list_follows_prompts (input : GenerationRequest)
    (payload : GenerationResponse Product) (images : list (option GeneratedImage)) :
  POST input = Some (Json200 payload) ->
  nanoBananaImages payload = Some images ->
  exists productData draft,
    Drafted input productData draft
    /\ forall i p, imagePrompts draft !! i = Some p ->
         exists res, generateNanoBananaImages i [p] = Return res
                     /\ images !! i = Some (head res).
Proof.
  intros (productData & draft & ck & Hdraft & Hchecks & ->)%POST_200_inv Himages.
  exists productData, draft. split; [done |].
  rewrite nanoBananaImages_payload_of in Himages.
  assert (Hstage : imageStage (includeImages input) (imagePrompts draft) = images).
  { destruct (imageStage _ _); [discriminate | by injection Himages]. }
  assert (Hne : images <> []) by (intros ->; by rewrite Hstage in Himages).
  unfold imageStage in Hstage.
  destruct (includeImages input && _); [| congruence].
  destruct (renderAll (imagePrompts draft)) as [rendered|] eqn:Hrender; [| congruence].
  subst rendered. by apply renderAll_Return in Hrender as [_ Hall].
Qed.

End Kept.

(** ** The FAQ round trip (lines 137-156) *)

Lemma or_else_same (s : string) : Str.or_else s s = s.
Proof. by destruct s. Qed.

Lemma length_append (a b : string) :
  String.length (a +:+ b) = String.length a + String.length b.
Proof. induction a as [|c a IH]; [reflexivity |]. simpl. f_equal. exact IH. Qed.

Lemma contains_cut (c : ascii) (s : string) :
  Str.contains c s = true ->
  exists before after, s = before +:+ String c after /\ Str.contains c before = false.
Proof.
  induction s as [|a rest IH]; simpl; [discriminate |].
  destruct (Ascii.eqb_spec a c) as [->|Hne]; simpl.
  - intros _. by exists EmptyString, rest.
  - intros (before & after & -> & Hbefore)%IH.
    exists (String a before), after. split; [reflexivity |]. simpl.
    rewrite Hbefore. by destruct (Ascii.eqb_spec a c).
Qed.

Lemma append_assoc (a b c : string) : (a +:+ b) +:+ c = a +:+ (b +:+ c).
Proof.
  induction a as [|x a IH]; [reflexivity |].
  change (String x ((a +:+ b) +:+ c) = String x (a +:+ (b +:+ c))). by f_equal.
Qed.

(** A checker that returns the text of a FAQ unchanged leaves the FAQ
    unchanged exactly when its heading has no line break: a heading with a
    line break is cut at it and the rest moves into the body. *)
Theorem faq_round_trip (faq : TextBlock) :
  splitFaq faq (heading faq +:+ Str.LF +:+ body faq) = faq
  <-> Str.contains LF_char (heading faq) = false.
Proof.
  destruct faq as [h b]. cbn [heading body]. unfold splitFaq. cbn [heading body].
  change (h +:+ Str.LF +:+ b) with (h +:+ String LF_char b).
  change Str.LF with (String LF_char EmptyString).
  split.
  - destruct (Str.contains LF_char h) eqn:Hnl; [| done].
    apply contains_cut in Hnl as (before & after & -> & Hbefore).
    rewrite append_assoc.
    change (String LF_char after +:+ String LF_char b)
      with (String LF_char (after +:+ String LF_char b)).
    rewrite (split_at_first _ _ _ Hbefore), join_split.
    intros [= _ Hbody]. exfalso. unfold Str.or_else in Hbody.
    destruct (after +:+ String LF_char b) as [|x rest] eqn:Hrest; [by destruct after |].
    simpl in Hbody. rewrite Hbody in Hrest.
    apply (f_equal String.length) in Hrest. rewrite length_append in Hrest.
    simpl in Hrest. lia.
  - intros Hnl. rewrite (split_at_first _ _ _ Hnl), join_split.
    by rewrite !or_else_same.
Qed.

(** ** The normalisation, again *)

Lemma set_same {V : Type} (k : string) (v : V) (ps : list (string * V)) :
  Obj.get k ps = Some v -> Obj.set k v ps = ps.
Proof.
  induction ps as [|[k0 v0] rest IH]; simpl; [discriminate |].
  destruct (String.eqb_spec k k0) as [->|Hne].
  - by intros [= ->].
  - intros Hget. by rewrite (IH Hget).
Qed.

Ltac in_fields :=
  unfold Draft.list_fields, Draft.text_fields;
  rewrite ?elem_of_app, !elem_of_cons; tauto.

Lemma set_array_fixed (k : string) (ps : list (string * JSValue)) :
  k ∈ Draft.list_fields ->
  set_array k (normalized_props ps) = normalized_props ps.
Proof.
  intros Hk. unfold set_array at 1. apply set_same.
  rewrite (normalized_list_field k ps Hk). f_equal.
  unfold array_default. by destruct (Obj.get k ps) as [[]|].
Qed.

Lemma set_text_fixed (k : string) (ps : list (string * JSValue)) :
  k ∈ Draft.text_fields ->
  set_text k (normalized_props ps) = normalized_props ps.
Proof.
  intros Hk. unfold set_text at 1. apply set_same.
  rewrite (normalized_text_field k ps Hk). f_equal.
  unfold text_default. by destruct (Obj.get k ps) as [[]|].
Qed.

Lemma normalized_props_idempotent (ps : list (string * JSValue)) :
  normalized_props (normalized_props ps) = normalized_props ps.
Proof.
  unfold normalized_props at 1.
  rewrite !set_array_fixed by in_fields. by rewrite !set_text_fixed by in_fields.
Qed.

Lemma get_set_array_ne (k name : string) (ps : list (string * JSValue)) :
  k <> name -> Obj.get k (set_array name ps) = Obj.get k ps.
Proof.
  intros Hne. unfold set_array. rewrite get_set.
  by destruct (String.eqb_spec k name).
Qed.

Lemma get_set_text_ne (k name : string) (ps : list (string * JSValue)) :
  k <> name -> Obj.get k (set_text name ps) = Obj.get k ps.
Proof.
  intros Hne. unfold set_text. rewrite get_set.
  by destruct (String.eqb_spec k name).
Qed.

Lemma normalized_props_others (k : string) (ps : list (string * JSValue)) :
  k ∉ Draft.list_fields ++ Draft.text_fields ->
  Obj.get k (normalized_props ps) = Obj.get k ps.
Proof.
  intros Hk. unfold normalized_props.
  rewrite !get_set_text_ne by (intros ->; apply Hk; in_fields).
  by rewrite !get_set_array_ne by (intros ->; apply Hk; in_fields).
Qed.

(** Normalising is idempotent, and it touches nothing but the nine
    fields: any other property of the payload and the elements of an
    array payload are as parsed. *)
Theorem normalize_idempotent (parsed normalized : JSValue) :
  Draft.normalize parsed = Return normalized ->
  Draft.normalize normalized = Return normalized
  /\ (forall k, k ∉ Draft.list_fields ++ Draft.text_fields ->
        Draft.get_prop normalized k = Draft.get_prop parsed k)
  /\ (forall elements named, parsed = JArray elements named ->
        exists named', normalized = JArray elements named').
Proof.
  destruct parsed as [| | | |es ps|ps]; try discriminate.
  - rewrite normalize_array. intros [= <-].
    rewrite normalize_array, normalized_props_idempotent.
    split; [reflexivity |]. split.
    + intros k Hk. simpl. by rewrite normalized_props_others.
    + intros elements named [= <- <-]. by eexists.
  - rewrite normalize_object. intros [= <-].
    rewrite normalize_object, normalized_props_idempotent.
    split; [reflexivity |]. split; [| discriminate].
    intros k Hk. simpl. by rewrite normalized_props_others.
Qed.

Lemma normalize_idempotent_witness :
  let normalized :=
    JObject [("title", JString "Kettle"); ("slug", JString EmptyString);
             ("sections", JArray [] []); ("faqs", JArray [] []);
             ("affiliateBlocks", JArray [] []); ("imagePrompts", JArray [] []);
             ("callToAction", JString EmptyString);
             ("metaDescription", JString EmptyString);
             ("excerpt", JString EmptyString)] in
  Draft.normalize normalized = Return normalized
  /\ (forall k, k ∉ Draft.list_fields ++ Draft.text_fields ->
        Draft.get_prop normalized k
        = Draft.get_prop (JObject [("title", JString "Kettle"); ("slug", JNull)]) k)
  /\ (forall elements named,
        JObject [("title", JString "Kettle"); ("slug", JNull)] = JArray elements named ->
        exists named', normalized = JArray elements named').
Proof.
  apply (normalize_idempotent (JObject [("title", JString "Kettle"); ("slug", JNull)])).
  vm_compute. reflexivity.
Defined.

(** ** The query of an affiliate link (lines 43-46) *)













Lemma pairs_where_remove_name (keep : string -> bool) (name : string)
    (l : list (string * string)) :
  keep name = false ->
  pairs_where keep (Url.remove_name name l) = pairs_where keep l.
Proof.
  intros Hname. induction l as [|[n v] rest IH]; [reflexivity |]. simpl.
  destruct (String.eqb_spec n name) as [->|Hne]; simpl.
  - by rewrite Hname.
  - by rewrite IH.
Qed.

Lemma pairs_where_set_pair (keep : string -> bool) (name value : string)
    (l : list (string * string)) :
  keep name = false ->
  pairs_where keep (Url.set_pair name value l) = pairs_where keep l.
Proof.
  intros Hname. induction l as [|[n v] rest IH]; simpl; [by rewrite Hname |].
  destruct (String.eqb_spec n name) as [->|Hne]; simpl.
  - rewrite Hname. by apply pairs_where_remove_name.
  - by rewrite IH.
Qed.

Lemma pairs_named_remove_name (name : string) (l : list (string * string)) :
  pairs_where (String.eqb name) (Url.remove_name name l) = [].
Proof.
  induction l as [|[n v] rest IH]; [reflexivity |]. simpl.
  destruct (String.eqb_spec n name) as [->|Hne]; [exact IH |]. simpl.
  destruct (String.eqb_spec name n) as [Heq|_]; [by subst | exact IH].
Qed.

Lemma pairs_named_set_pair (name value : string) (l : list (string * string)) :
  pairs_where (String.eqb name) (Url.set_pair name value l) = [(name, value)].
Proof.
  induction l as [|[n v] rest IH]; simpl; [by rewrite String.eqb_refl |].
  destruct (String.eqb_spec n name) as [->|Hne]; simpl.
  - rewrite String.eqb_refl. f_equal. apply pairs_named_remove_name.
  - destruct (String.eqb_spec name n) as [Heq|_]; [by subst | exact IH].
Qed.

(** The link of an entry has exactly one [ref] and one [target]: a [ref]
    or [target] already in the base URL is replaced, not repeated. Every
    other parameter of the base URL is kept, in its order. *)
Theorem link_sets_ref_and_target_once (parser : string -> option Url.Parsed)
    (config : AffiliateEntry) (productUrl : string) (parsed : Url.Parsed) :
  parser (to_USVString (baseUrl config)) = Some parsed ->
  exists url,
    affiliate_url parser config productUrl = Return url
    /\ pairs_where (String.eqb "ref") (Url.params url)
       = [("ref", to_USVString (tag config))]
    /\ pairs_where (String.eqb "target") (Url.params url) = [("target", productUrl)]
    /\ pairs_where (fun n => negb (String.eqb n "ref") && negb (String.eqb n "target"))
         (Url.params url)
       = pairs_where (fun n => negb (String.eqb n "ref") && negb (String.eqb n "target"))
           (default [] (Url.parse_query <$> Url.p_query parsed)).
Proof.
  intros Hparse. unfold affiliate_url, Url.new_URL. rewrite Hparse. cbn [bindC].
  eexists. split; [reflexivity |].
  cbn [Url.searchParams_set Url.params]. split; [| split].
  - rewrite pairs_where_set_pair by reflexivity. apply pairs_named_set_pair.
  - apply pairs_named_set_pair.
  - by rewrite !pairs_where_set_pair by reflexivity.
Qed.

Lemma link_sets_ref_and_target_once_witness :
  exists url,
    affiliate_url Url.parse_plain
      {| baseUrl := Some "https://amzn.to/x?ref=old&utm=mail&ref=older";
         tag := Some "tag123" |}
      "https://example.com/p" = Return url
    /\ Url.toString url
       = "https://amzn.to/x?ref=tag123&utm=mail&target=https%3A%2F%2Fexample.com%2Fp"
    /\ pairs_where (String.eqb "ref") (Url.params url) = [("ref", "tag123")]
    /\ pairs_where (String.eqb "target") (Url.params url)
       = [("target", "https://example.com/p")]
    /\ pairs_where (fun n => negb (String.eqb n "ref") && negb (String.eqb n "target"))
         (Url.params url)
       = pairs_where (fun n => negb (String.eqb n "ref") && negb (String.eqb n "target"))
           [("ref", "old"); ("utm", "mail"); ("ref", "older")].
Proof.
  destruct (link_sets_ref_and_target_once Url.parse_plain
              {| baseUrl := Some "https://amzn.to/x?ref=old&utm=mail&ref=older";
                 tag := Some "tag123" |}
              "https://example.com/p"
              {| Url.p_base := "https://amzn.to/x";
                 Url.p_query := Some "ref=old&utm=mail&ref=older";
                 Url.p_fragment := None |} eq_refl)
    as (url & Hurl & Href & Htarget & Hothers).
  exists url. split; [exact Hurl |].
  split; [| split; [exact Href | split; [exact Htarget | exact Hothers]]].
  vm_compute in Hurl. injection Hurl as <-. reflexivity.
Defined.

(** ** Trimmed texts (lines 183-201) *)

Lemma strip_prefix_app (p l rest : list ascii) :
  Str.strip_prefix p l = Some rest <-> l = p ++ rest.
Proof.
  revert l. induction p as [|a p IH]; intros l; simpl.
  - split; [by intros [= ->] | by intros ->].
  - destruct l as [|b l]; [by split |].
    destruct (Ascii.eqb_spec a b) as [->|Hne].
    + rewrite IH. split; [by intros -> | by intros [= ->]].
    + split; [discriminate | intros [= -> _]; done].
Qed.

Lemma strip_any_app (ps : list (list ascii)) (l rest : list ascii) :
  Str.strip_any ps l = Some rest -> exists p, p ∈ ps /\ l = p ++ rest.
Proof.
  induction ps as [|p ps IH]; simpl; [discriminate |].
  destruct (Str.strip_prefix p l) as [rest'|] eqn:Hp.
  - intros [= <-]. exists p. split; [left |]. by apply strip_prefix_app.
  - intros (q & Hq & ->)%IH. exists q. split; [by right | reflexivity].
Qed.

Lemma strip_any_longer (ps : list (list ascii)) (l more : list ascii) :
  Str.strip_any ps l <> None -> Str.strip_any ps (l ++ more) <> None.
Proof.
  induction ps as [|p ps IH]; simpl; [done |].
  destruct (Str.strip_prefix p l) as [rest|] eqn:Hp.
  - intros _. apply strip_prefix_app in Hp as ->.
    rewrite <- (assoc_L (++)).
    by rewrite (proj2 (strip_prefix_app p (p ++ rest ++ more) (rest ++ more)) eq_refl).
  - intros Hrest. destruct (Str.strip_prefix p (l ++ more)); [done | by apply IH].
Qed.

Lemma white_bytes_not_empty (backwards : bool) :
  Forall (fun p => p <> []) (Str.white_bytes backwards).
Proof. destruct backwards; vm_compute; repeat constructor; discriminate. Qed.

Lemma drop_white_stops (ps : list (list ascii)) (fuel : nat) (l : list ascii) :
  Forall (fun p => p <> []) ps ->
  length l <= fuel ->
  Str.strip_any ps (Str.drop_white ps fuel l) = None.
Proof.
  intros Hps. revert l. induction fuel as [|fuel IH]; intros l Hlen; simpl.
  - destruct l; [| simpl in Hlen; lia].
    clear Hlen. induction Hps as [|p ps Hp _ IHps]; [reflexivity |]. simpl.
    by destruct p.
  - destruct (Str.strip_any ps l) as [rest|] eqn:Hstrip; [| exact Hstrip].
    apply IH. apply strip_any_app in Hstrip as (p & Hp & ->).
    rewrite Forall_forall in Hps. specialize (Hps p Hp).
    rewrite length_app in Hlen. destruct p; [done | simpl in Hlen; lia].
Qed.

Lemma drop_white_nothing (ps : list (list ascii)) (fuel : nat) (l : list ascii) :
  Str.strip_any ps l = None -> Str.drop_white ps fuel l = l.
Proof. intros Hl. destruct fuel; simpl; [reflexivity | by rewrite Hl]. Qed.

Lemma drop_white_suffix (ps : list (list ascii)) (fuel : nat) (l : list ascii) :
  exists dropped, l = dropped ++ Str.drop_white ps fuel l.
Proof.
  revert l. induction fuel as [|fuel IH]; intros l; simpl; [by exists [] |].
  destruct (Str.strip_any ps l) as [rest|] eqn:Hstrip; [| by exists []].
  apply strip_any_app in Hstrip as (p & _ & ->).
  destruct (IH rest) as [dropped Hdropped].
  exists (p ++ dropped). by rewrite <- (assoc_L (++)), <- Hdropped.
Qed.

(** The characters [trim] keeps: the list it is given, less a prefix and
    a suffix, and nothing left to strip at either end. *)
Lemma trim_list_spec (l : list ascii) :
  let kept := Str.trimEnd_list (Str.trimStart_list l) in
  (exists before after, l = before ++ kept ++ after)
  /\ Str.strip_any (Str.white_bytes false) kept = None
  /\ Str.strip_any (Str.white_bytes true) (reverse kept) = None.
Proof.
  cbv zeta. unfold Str.trimEnd_list, Str.trimStart_list.
  set (m := Str.drop_white (Str.white_bytes false) (length l) l).
  set (d := Str.drop_white (Str.white_bytes true) (length m) (reverse m)).
  destruct (drop_white_suffix (Str.white_bytes false) (length l) l) as [before Hbefore].
  destruct (drop_white_suffix (Str.white_bytes true) (length m) (reverse m))
    as [after Hafter].
  fold m in Hbefore. fold d in Hafter.
  assert (Hm : m = reverse d ++ reverse after).
  { by rewrite <- reverse_app, <- Hafter, reverse_involutive. }
  split; [| split].
  - exists before, (reverse after). by rewrite <- Hm.
  - assert (Hstart : Str.strip_any (Str.white_bytes false) m = None).
    { apply drop_white_stops; [apply white_bytes_not_empty | done]. }
    destruct (Str.strip_any (Str.white_bytes false) (reverse d)) eqn:Hd; [| done].
    exfalso. rewrite Hm in Hstart. revert Hstart. apply strip_any_longer. by rewrite Hd.
  - rewrite reverse_involutive.
    apply drop_white_stops; [apply white_bytes_not_empty | by rewrite length_reverse].
Qed.

Lemma trim_idempotent (s : string) : Str.trim (Str.trim s) = Str.trim s.
Proof.
  unfold Str.trim. rewrite list_ascii_of_string_of_list_ascii. f_equal.
  destruct (trim_list_spec (list_ascii_of_string s)) as (_ & Hstart & Hend).
  set (kept := Str.trimEnd_list (Str.trimStart_list (list_ascii_of_string s))) in *.
  unfold Str.trimStart_list. rewrite (drop_white_nothing _ _ _ Hstart).
  unfold Str.trimEnd_list at 1. rewrite (drop_white_nothing _ _ _ Hend).
  apply reverse_involutive.
Qed.

Lemma contains_elem_of (c : ascii) (s : string) :
  Str.contains c s = false <-> c ∉ list_ascii_of_string s.
Proof.
  induction s as [|a rest IH]; simpl.
  - split; [intros _; apply not_elem_of_nil | done].
  - rewrite orb_false_iff, not_elem_of_cons, IH, Ascii.eqb_neq.
    split; intros [H1 H2]; split; congruence.
Qed.

Lemma trim_keeps_absent (c : ascii) (s : string) :
  Str.contains c s = false -> Str.contains c (Str.trim s) = false.
Proof.
  rewrite !contains_elem_of. unfold Str.trim.
  rewrite list_ascii_of_string_of_list_ascii. intros Hc Hkept. apply Hc.
  destruct (trim_list_spec (list_ascii_of_string s)) as ((before & after & Heq) & _).
  rewrite Heq. rewrite !elem_of_app. auto.
Qed.

Section Trimmed.

Context {Product : Type} `{!Services Product}.

(** The title, the meta description, the excerpt and the call to action
    of a 200 answer are trimmed: trimming them again changes nothing. *)
Theorem response_texts_are_trimmed (input : GenerationRequest)
    (payload : GenerationResponse Product) :
  POST input = Some (Json200 payload) ->
  Str.trim (title (article payload)) = title (article payload)
  /\ Str.trim (metaDescription (article payload)) = metaDescription (article payload)
  /\ Str.trim (excerpt (article payload)) = excerpt (article payload)
  /\ Str.trim (callToAction (article payload)) = callToAction (article payload).
Proof.
  intros (productData & draft & ck & _ & _ & ->)%POST_200_inv.
  unfold payload_of, responsePayload, correctedArticle.
  cbn [article title metaDescription excerpt callToAction].
  repeat split; apply trim_idempotent.
Qed.

End Trimmed.

(** ** The form (src/app/page.tsx) *)

Lemma split_where_pieces (sep : ascii -> bool) (s piece : string) (c : ascii) :
  piece ∈ Page.split_where sep s -> sep c = true -> Str.contains c piece = false.
Proof.
  intros Hin Hc. revert piece Hin. induction s as [|x rest IH]; intros piece; simpl.
  - by intros ->%list_elem_of_singleton.
  - destruct (sep x) eqn:Hx.
    + intros [->|Hin]%elem_of_cons; [reflexivity | by apply IH].
    + destruct (Page.split_where sep rest) as [|first pieces].
      * intros ->%list_elem_of_singleton. simpl.
        destruct (Ascii.eqb_spec x c) as [->|_]; [congruence | reflexivity].
      * intros [->|Hin]%elem_of_cons.
        -- simpl. rewrite (IH first) by left.
           destruct (Ascii.eqb_spec x c) as [->|_]; [congruence | reflexivity].
        -- apply IH. by right.
Qed.

(** Every keyword the form sends is not empty, is trimmed and holds no
    line feed and no comma. *)
Theorem keywordList_entries (seoKeywords keyword : string) :
  keyword ∈ Page.keywordList seoKeywords ->
  keyword <> EmptyString
  /\ Str.trim keyword = keyword
  /\ Str.contains LF_char keyword = false
  /\ Str.contains ","%char keyword = false.
Proof.
  unfold Page.keywordList. rewrite list_elem_of_In, filter_In, <- list_elem_of_In.
  intros [(piece & -> & Hpiece)%list_elem_of_fmap Htruthy]. split; [| split; [| split]].
  - intros Hempty. by rewrite Hempty in Htruthy.
  - apply trim_idempotent.
  - apply trim_keeps_absent. by apply (split_where_pieces Page.is_separator seoKeywords).
  - apply trim_keeps_absent. by apply (split_where_pieces Page.is_separator seoKeywords).
Qed.

Lemma keywordList_entries_witness :
  "review completo" <> EmptyString
  /\ Str.trim "review completo" = "review completo"
  /\ Str.contains LF_char "review completo" = false
  /\ Str.contains ","%char "review completo" = false.
Proof.
  apply (keywordList_entries
           ("melhor preço, " +:+ Str.LF +:+ "  review completo " +:+ Str.LF +:+ ",")).
  vm_compute. right. left.
Defined.

(** The two inputs of a platform are independent: typing the tag after
    the base URL or the base URL after the tag gives the same entry, with
    both values; edits of different platforms commute; of two values typed
    into the same input the later one stays. *)
Theorem affiliate_edits_compose (state : Page.AffiliateInputs) :
  (forall key base t,
     Page.onTagChange key t (Page.onBaseUrlChange key base state)
     = Page.onBaseUrlChange key base (Page.onTagChange key t state)
     /\ Page.onTagChange key t (Page.onBaseUrlChange key base state) !! key
        = Some {| baseUrl := Some base; tag := Some t |})
  /\ (forall e1 e2, Page.edited e1 <> Page.edited e2 ->
        Page.apply e1 (Page.apply e2 state) = Page.apply e2 (Page.apply e1 state))
  /\ (forall key first second,
        Page.onBaseUrlChange key second (Page.onBaseUrlChange key first state)
        = Page.onBaseUrlChange key second state
        /\ Page.onTagChange key second (Page.onTagChange key first state)
           = Page.onTagChange key second state).
Proof.
  split; [| split].
  - intros key base t. unfold Page.onTagChange, Page.onBaseUrlChange.
    rewrite !lookup_insert_eq, !insert_insert_eq. cbn. done.
  - intros [k1 v1|k1 v1] [k2 v2|k2 v2] Hne; simpl in Hne;
      unfold Page.apply, Page.onTagChange, Page.onBaseUrlChange;
      rewrite (lookup_insert_ne state k2 k1) by congruence;
      rewrite (lookup_insert_ne state k1 k2) by congruence;
      by apply insert_insert_ne.
  - intros key first second. unfold Page.onTagChange, Page.onBaseUrlChange.
    rewrite !lookup_insert_eq, !insert_insert_eq. cbn. done.
Qed.

Lemma after_edits_entries (edits : list Page.Edit) (key : string) :
  match Page.after_edits edits !! key with
  | Some entry => key ∈ Page.edited <$> edits
                  /\ exists base t, entry = {| baseUrl := Some base; tag := Some t |}
  | None => key ∉ Page.edited <$> edits
  end.
Proof.
  unfold Page.after_edits.
  induction edits as [|e edits IH] using rev_ind.
  - simpl. rewrite lookup_empty. apply not_elem_of_nil.
  - rewrite foldl_snoc, fmap_app, fmap_cons, fmap_nil.
    set (state := foldl _ ∅ edits) in *.
    destruct (decide (key = Page.edited e)) as [->|Hne].
    + destruct e as [k v|k v]; cbn [Page.apply Page.edited];
        unfold Page.onBaseUrlChange, Page.onTagChange;
        rewrite lookup_insert_eq;
        (split; [apply elem_of_app; right; left | by eexists _, _]).
    + assert (Hsame : Page.apply e state !! key = state !! key).
      { destruct e as [k v|k v]; cbn [Page.apply Page.edited] in *;
          unfold Page.onBaseUrlChange, Page.onTagChange;
          by rewrite lookup_insert_ne by congruence. }
      rewrite Hsame. destruct (state !! key) as [entry|].
      * destruct IH as [Hin Hentry]. split; [apply elem_of_app; by left | done].
      * intros [Hin|Hin%list_elem_of_singleton]%elem_of_app; done.
Qed.

(** The form never sends a partial entry: after any series of edits a
    platform has an entry exactly when one of its inputs was edited, and
    every entry of the configuration sent has a base URL and a tag (each
    possibly the empty text). *)
Theorem form_sends_complete_entries (edits : list Page.Edit) (key : string) :
  (is_Some (Page.affiliateConfig_of (Page.after_edits edits) !! key)
   <-> key ∈ Page.edited <$> edits)
  /\ (forall config, Page.affiliateConfig_of (Page.after_edits edits) !! key = Some config ->
        exists base t, config = Some {| baseUrl := Some base; tag := Some t |}).
Proof.
  unfold Page.affiliateConfig_of. rewrite lookup_fmap.
  pose proof (after_edits_entries edits key) as Hentry.
  destruct (Page.after_edits edits !! key) as [entry|]; simpl.
  - destruct Hentry as [Hin (base & t & ->)]. split; [by split |].
    intros config [= <-]. by eexists _, _.
  - split; [split; [by intros [? ?] | done] | done].
Qed.

(** ** The limiter wastes no place (lines 168-176) *)

Lemma fire_keeps_busy (concurrency total : nat) (e : Limiter.Event)
    (s s' : Limiter.State) :
  limiter_inv concurrency total s ->
  limiter_busy concurrency s ->
  Limiter.fire concurrency total e s = Some s' ->
  limiter_busy concurrency s'.
Proof.
  intros (Hactive & Hcap & _) Hbusy Hfire. unfold limiter_busy in *.
  destruct s as [sub q ch act fl st started].
  destruct e as [| |task|]; unfold Limiter.fire in Hfire; limiter_fields.
  - destruct (Nat.ltb sub total); [| discriminate]. injection Hfire as <-.
    limiter_fields. rewrite length_app. simpl. lia.
  - destruct ch as [|n]; [discriminate |]. injection Hfire as <-.
    destruct (Nat.ltb_spec act concurrency) as [Hlt|Hge].
    + destruct q as [|task rest]; limiter_fields; simpl in *; lia.
    + limiter_fields. lia.
  - destruct (Limiter.remove_task task fl); [| discriminate]. injection Hfire as <-.
    limiter_fields. exact Hbusy.
  - destruct st as [|n]; [discriminate |]. injection Hfire as <-.
    destruct q as [|task rest]; limiter_fields; simpl in *; lia.
Qed.

Lemma run_keeps_busy (concurrency total : nat) (events : list Limiter.Event)
    (s s' : Limiter.State) :
  limiter_inv concurrency total s ->
  limiter_busy concurrency s ->
  Limiter.run concurrency total events s = Some s' ->
  limiter_busy concurrency s'.
Proof.
  revert s. induction events as [|e rest IH]; intros s Hinv Hbusy; simpl.
  - by intros [= <-].
  - destruct (Limiter.fire concurrency total e s) as [s1|] eqn:Hfire; [| discriminate].
    apply IH; [by apply (fire_preserves _ _ e s) | by apply (fire_keeps_busy _ total e s)].
Qed.

(** A prompt waits only while both places are taken: in any state the
    image stage can reach, if a prompt is in the queue and no check is
    pending, two calls are active (in flight, or settled and about to hand
    their place on). *)
Theorem waiting_means_two_active (total : nat) (events : list Limiter.Event)
    (s : Limiter.State) :
  Limiter.run renderConcurrency total events Limiter.init = Some s ->
  Limiter.queue s <> [] ->
  Limiter.checks s = 0 ->
  length (Limiter.in_flight s) + Limiter.settled s = 2.
Proof.
  intros Hrun Hqueue Hchecks.
  assert (Hinit : limiter_inv renderConcurrency total Limiter.init).
  { unfold limiter_inv, Limiter.init; simpl. repeat split; [lia | lia | done]. }
  assert (Hbusy0 : limiter_busy renderConcurrency Limiter.init).
  { unfold limiter_busy, Limiter.init; simpl. lia. }
  pose proof (run_preserves _ _ _ _ _ Hinit Hrun) as (Hactive & Hcap & _).
  pose proof (run_keeps_busy _ _ _ _ _ Hinit Hbusy0 Hrun) as Hbusy.
  unfold limiter_busy, renderConcurrency in *.
  destruct (Limiter.queue s) as [|task rest]; [done |]. simpl in Hbusy. lia.
Qed.

Lemma waiting_means_two_active_witness :
  Limiter.queue
    {| Limiter.submitted := 3; Limiter.queue := [2]; Limiter.checks := 0;
       Limiter.activeCount := 2; Limiter.in_flight := [1];
       Limiter.settled := 1; Limiter.started := [0; 1] |} <> []
  /\ length [1] + 1 = 2.
Proof.
  split; [discriminate |].
  apply (waiting_means_two_active 3
           [Limiter.Submit; Limiter.Submit; Limiter.Submit;
            Limiter.Check; Limiter.Check; Limiter.Check; Limiter.Settle 0]
           {| Limiter.submitted := 3; Limiter.queue := [2]; Limiter.checks := 0;
              Limiter.activeCount := 2; Limiter.in_flight := [1];
              Limiter.settled := 1; Limiter.started := [0; 1] |});
    [reflexivity | discriminate | reflexivity].
Defined.

(** ** Concrete runs of the further properties *)

Lemma no_render_without_includeImages_witness :
  @POST string
    (with_images
       (Sample.services (Some (Sample.content ["stove"])) (Sample.keep_batch "block: ")
          Sample.render_ok)
       (Sample.render_but 0))
    (Sample.request false None)
  = @POST string
      (Sample.services (Some (Sample.content ["stove"])) (Sample.keep_batch "block: ")
         Sample.render_ok)
      (Sample.request false None).
Proof.
  exact (no_render_without_includeImages
           (Sample.services (Some (Sample.content ["stove"]))
              (Sample.keep_batch "block: ") Sample.render_ok)
           (Sample.render_but 0) (Sample.request false None) eq_refl).
Defined.

Lemma unparseable_content_is_fatal_witness :
  JSON.parse (Str.trim "Sorry, I cannot help with that.") = None
  /\ @POST string
       (Sample.services (Some "Sorry, I cannot help with that.")
          (Sample.keep_batch "block: ") Sample.render_ok)
       (Sample.request true None)
     = Some (Json400 (ErrorMessage "Failed to parse article response from model")).
Proof.
  split; [vm_compute; reflexivity |].
  apply (@unparseable_content_is_fatal string
           (Sample.services (Some "Sorry, I cannot help with that.")
              (Sample.keep_batch "block: ") Sample.render_ok)
           (Sample.request true None) Sample.snapshot
           (fun _ => Return (Some "Sorry, I cannot help with that."))
           {[ "amazon" :=
                "https://amzn.to/x?ref=tag123&target=https%3A%2F%2Fexample.com%2Fp" ]}
           "Sorry, I cannot help with that.").
  - reflexivity.
  - reflexivity.
  - vm_compute. reflexivity.
  - reflexivity.
  - vm_compute. reflexivity.
Defined.

Lemma non_object_content_is_fatal_witness :
  JSON.parse (Str.trim " 42 ") = Some (JNumber "42")
  /\ Draft.normalize (JNumber "42") = Throw TypeError
  /\ @POST string
       (Sample.services (Some " 42 ") (Sample.keep_batch "block: ") Sample.render_ok)
       (Sample.request true None)
     = Some (Json400 TypeError).
Proof.
  split; [vm_compute; reflexivity |].
  apply (@non_object_content_is_fatal string
           (Sample.services (Some " 42 ") (Sample.keep_batch "block: ") Sample.render_ok)
           (Sample.request true None) Sample.snapshot
           (fun _ => Return (Some " 42 "))
           {[ "amazon" :=
                "https://amzn.to/x?ref=tag123&target=https%3A%2F%2Fexample.com%2Fp" ]}
           " 42 " (JNumber "42")).
  - reflexivity.
  - reflexivity.
  - vm_compute. reflexivity.
  - reflexivity.
  - vm_compute. reflexivity.
  - reflexivity.
Defined.


(** A title check that fails is the first fatal error of the run: the
    two batch checks before it returned. *)
Example title_check_failure :
  @POST string
    (Runs.with_check (Some (Sample.content ["stove"]))
       (Runs.reject_text "Kettle review"))
    (Sample.request true None)
  = Some (Json400 (ErrorMessage "dictionary unavailable")).
Proof. vm_compute. reflexivity. Qed.

Lemma checked_article_keeps_structure_witness :
  exists payload,
    @POST string
      (Sample.services (Some (Sample.content ["stove"]))
         (Sample.flatten_batch "Flat") Sample.render_ok)
      (Sample.request true None) = Some (Json200 payload)
    /\ sections (article payload) = [ {| heading := "Intro"; body := "Flat" |} ]
    /\ exists productData draft ck,
         @Drafted string
           (Sample.services (Some (Sample.content ["stove"]))
              (Sample.flatten_batch "Flat") Sample.render_ok)
           (Sample.request true None) productData draft
         /\ @Spellchecks string
              (Sample.services (Some (Sample.content ["stove"]))
                 (Sample.flatten_batch "Flat") Sample.render_ok)
              (Sample.request true None) draft ck
         /\ length (sections (article payload)) = length (sections draft)
         /\ (forall i section, sections draft !! i = Some section ->
               sections (article payload) !! i
               = Some {| heading := heading section;
                         body := match corrected (sectionCheck ck) !! i with
                                 | Some text => text
                                 | None => body section
                                 end |})
         /\ length (faqs (article payload)) = length (faqs draft)
         /\ slug (article payload) = slug draft
         /\ affiliateBlocks (article payload) = affiliateBlocks draft
         /\ imagePrompts (article payload) = imagePrompts draft.
Proof.
  eexists. split; [vm_compute; reflexivity |]. split; [reflexivity |].
  apply (@checked_article_keeps_structure string
           (Sample.services (Some (Sample.content ["stove"]))
              (Sample.flatten_batch "Flat") Sample.render_ok)
           (Sample.request true None)).
  vm_compute. reflexivity.
Defined.

(** Two prompts, the second call resolving with no image: the list has a
    hole at its place. *)
Lemma image_list_follows_prompts_witness :
  exists payload,
    @POST string
      (Sample.services (Some (Sample.content ["stove"; "detail"]))
         (Sample.keep_batch "block: ") (Runs.render_hollow 1))
      (Sample.request true None) = Some (Json200 payload)
    /\ nanoBananaImages payload = Some [Some (Sample.image "stove"); None]
    /\ exists productData draft,
         @Drafted string
           (Sample.services (Some (Sample.content ["stove"; "detail"]))
              (Sample.keep_batch "block: ") (Runs.render_hollow 1))
           (Sample.request true None) productData draft
         /\ forall i p, imagePrompts draft !! i = Some p ->
              exists res, Runs.render_hollow 1 i [p] = Return res
                          /\ [Some (Sample.image "stove"); None] !! i = Some (head res).
Proof.
  eexists. split; [vm_compute; reflexivity |]. split; [reflexivity |].
  eapply (@image_list_follows_prompts string
            (Sample.services (Some (Sample.content ["stove"; "detail"]))
               (Sample.keep_batch "block: ") (Runs.render_hollow 1))
            (Sample.request true None)).
  - vm_compute. reflexivity.
  - reflexivity.
Defined.

Lemma response_texts_are_trimmed_witness :
  exists payload,
    @POST string
      (Sample.services (Some (Sample.content []))
         (Sample.keep_batch "block: ") Sample.render_ok)
      (Sample.request false None) = Some (Json200 payload)
    /\ Str.trim (title (article payload)) = title (article payload)
    /\ Str.trim (metaDescription (article payload)) = metaDescription (article payload)
    /\ Str.trim (excerpt (article payload)) = excerpt (article payload)
    /\ Str.trim (callToAction (article payload)) = callToAction (article payload).
Proof.
  eexists. split; [vm_compute; reflexivity |].
  apply (@response_texts_are_trimmed string
           (Sample.services (Some (Sample.content []))
              (Sample.keep_batch "block: ") Sample.render_ok)
           (Sample.request false None)).
  vm_compute. reflexivity.
Defined.
